(** * Igor AAA server: the Diameter peer actor, the FreeRADIUS dictionary
      parser and the RADIUS server read loop, embedded from the Go sources.

    - [Diamcodec], [Config], [DiamcodecNew]
                      the parts of igor/diamcodec and igor/config the peer
                      relies on
    - [Diampeer]      src/diampeer/diamPeer.go
    - [Core]          src/core/freeradius_parser.go
    - [Radiusserver]  the radiusserver package (RadiusServer.readLoop)
    - [PeerSpec], [CoreSpec], [RadiusSpec]
                      the conditions of the specification and concrete inputs
    - [DiampeerRuntime], [PeerRunSpec]
                      the constructors, connect and the reader of the peer
    - [CoreInvariants], [CoreRunSpec]
                      what a load keeps of a dictionary
    - [RadiusAccounting]
                      what a run of the read loop records
    - [ConfigObjects] src/config/config.go: the configuration objects, their
                      retrieval through the search rules and their cache
    - [PeerProperties], [CoreProperties], [RadiusProperties]
                      what is proved of each
    - [PeerRunProperties], [CoreInvariantProperties], [RadiusRunProperties],
      [ConfigProperties]
                      runs of the event loop, of a load and of the read
                      loop, and the cache

    Channels are modelled by the sequence of operations performed on them:
    every send, close, socket write and metric call of the Go code appears,
    in program order, in the trace of the action that performs it.  Calls to
    the logger have no effect on any state and are left out. *)

From stdpp Require Import base option list gmap strings pretty.
From Stdlib Require Import ZArith NArith Lia.
From Stdlib Require Ascii String.

Local Open Scope string_scope.

(** Go's [error] values are represented by their message. *)
Definition GoError : Type := string.

(** Go's [int] is 64 bits wide on the platforms igor is built for. *)
Definition wrap_int (z : Z) : Z := ((z + 2 ^ 63) `mod` 2 ^ 64 - 2 ^ 63)%Z.

(** Go's [uint32(x)] and [byte(x)] conversions. *)
Definition to_uint32 (z : Z) : Z := (z `mod` 2 ^ 32)%Z.
Definition to_byte (z : Z) : Z := (z `mod` 2 ^ 8)%Z.

(** [strings.Contains(s, sub)]. *)
Definition strContains (s sub : string) : bool :=
  match String.index 0 sub s with Some _ => true | None => false end.

(* ===================================================================== *)
(** * diamcodec: messages as the peer sees them *)
(* ===================================================================== *)

Module Diamcodec.

Definition DIAMETER_SUCCESS : Z := 2001.
Definition DIAMETER_UNKNOWN_PEER : Z := 3010.

(** The Go code passes [interface{}] values to [Add]; the peer only ever
    passes strings and integers. *)
Inductive AVPValue : Type :=
| VString (s : string)
| VInt (z : Z).

Record DiameterAVP : Type := mkAVP {
  Name : string;
  Value : AVPValue
}.

Record DiameterMessage : Type := mkMessage {
  IsRequest : bool;
  ApplicationId : Z;
  ApplicationName : string;
  CommandCode : Z;
  CommandName : string;
  HopByHopId : N;
  EndToEndId : N;
  AVPs : list DiameterAVP
}.

(** Modelled from the spec: diamcodec's DiameterAVP.GetString is not under
    src/; the value rendered as text. *)
Definition GetString (avp : DiameterAVP) : string :=
  match Value avp with
  | VString s => s
  | VInt z => pretty z
  end.

(** Modelled from the spec: diamcodec's DiameterAVP.GetInt is not under
    src/; the numeric value, 0 for a value that is not numeric. *)
Definition GetInt (avp : DiameterAVP) : Z :=
  match Value avp with
  | VInt z => z
  | VString _ => 0
  end.

(** Modelled from the spec: diamcodec's DiameterMessage.GetAVP is not under
    src/; the first AVP of the message with that name, [None] standing for
    the error returned when there is none. *)
Definition GetAVP (m : DiameterMessage) (name : string) : option DiameterAVP :=
  List.find (fun avp => String.eqb (Name avp) name) (AVPs m).

(** Modelled from the spec: diamcodec's DiameterMessage.GetResultCode is not
    under src/; the value of the Result-Code AVP as a uint32, 0 when the
    message carries none. *)
Definition GetResultCode (m : DiameterMessage) : Z :=
  match GetAVP m "Result-Code" with
  | Some avp => to_uint32 (GetInt avp)
  | None => 0
  end.

(** Modelled from the spec: diamcodec's DiameterMessage.Add is not under
    src/; the AVP is appended to the ordered list of the message. *)
Definition Add (m : DiameterMessage) (name : string) (v : AVPValue) : DiameterMessage :=
  {| IsRequest := IsRequest m;
     ApplicationId := ApplicationId m;
     ApplicationName := ApplicationName m;
     CommandCode := CommandCode m;
     CommandName := CommandName m;
     HopByHopId := HopByHopId m;
     EndToEndId := EndToEndId m;
     AVPs := AVPs m ++ [mkAVP name v] |}.

End Diamcodec.

(* ===================================================================== *)
(** * config: what the peer reads from its configuration instance *)
(* ===================================================================== *)

Module Config.

(** config.DiameterPeer, with the fields the peer uses. *)
Record DiameterPeer : Type := mkPeerConf {
  DiameterHost : string;
  IPAddress : string;
  Port : Z;
  ConnectionTimeoutMillis : Z;
  WatchdogIntervalMillis : Z
}.

Definition emptyPeer : DiameterPeer := mkPeerConf EmptyString EmptyString 0 0 0.

(** The value returned by PeersConf().  Its two methods live in the config
    package, which is not under src/, and are taken as they are. *)
Record DiameterPeers : Type := mkPeers {
  ValidateIncomingAddress : string -> string -> bool;
  FindPeer : string -> option DiameterPeer
}.

Record DiameterServerConfig : Type := mkServerConf {
  BindAddress : string;
  OriginHost : string;
  OriginRealm : string;
  VendorId : Z;
  FirmwareRevision : Z
}.

Record DiameterRoutingRule : Type := mkRule {
  RuleApplicationId : string
}.

Record DiameterApp : Type := mkApp {
  AppType : string;
  Code : Z;
  Commands : list (string * Z)
}.

Record ConfigurationManager : Type := mkCM {
  DiameterServerConf : DiameterServerConfig;
  PeersConf : DiameterPeers;
  RoutingRulesConf : list DiameterRoutingRule;
  AppByName : gmap string DiameterApp
}.

End Config.

Module DiamcodecNew.
Import Diamcodec Config.

(** Modelled from the spec: diamcodec.NewInstanceDiameterRequest is not
    under src/.  A request for a command of an application of the
    dictionary, stamped with the local origin and carrying the fresh
    identifiers given; an error when the dictionary has no such command. *)
Definition NewInstanceDiameterRequest (ci : ConfigurationManager)
    (appName commandName : string) (hbh e2e : N) : option DiameterMessage :=
  match AppByName ci !! appName with
  | None => None
  | Some app =>
    match List.find (fun c => String.eqb (fst c) commandName) (Commands app) with
    | None => None
    | Some (_, code) =>
      Some {| IsRequest := true;
              ApplicationId := Code app;
              ApplicationName := appName;
              CommandCode := code;
              CommandName := commandName;
              HopByHopId := hbh;
              EndToEndId := e2e;
              AVPs := [mkAVP "Origin-Host" (VString (OriginHost (DiameterServerConf ci)));
                       mkAVP "Origin-Realm" (VString (OriginRealm (DiameterServerConf ci)))] |}
    end
  end.

(** Modelled from the spec: diamcodec.NewInstanceDiameterAnswer is not
    under src/.  The answer copies application, command and both
    identifiers of its request and is stamped with the local origin. *)
Definition NewInstanceDiameterAnswer (ci : ConfigurationManager)
    (request : DiameterMessage) : DiameterMessage :=
  {| IsRequest := false;
     ApplicationId := ApplicationId request;
     ApplicationName := ApplicationName request;
     CommandCode := CommandCode request;
     CommandName := CommandName request;
     HopByHopId := HopByHopId request;
     EndToEndId := EndToEndId request;
     AVPs := [mkAVP "Origin-Host" (VString (OriginHost (DiameterServerConf ci)));
              mkAVP "Origin-Realm" (VString (OriginRealm (DiameterServerConf ci)))] |}.

End DiamcodecNew.

(* ===================================================================== *)
(** * diampeer: the peer actor *)
(* ===================================================================== *)

Module Diampeer.
Import Diamcodec DiamcodecNew.

Definition StatusConnecting : Z := 1.
Definition StatusConnected : Z := 2.
Definition StatusEngaged : Z := 3.
Definition StatusClosing : Z := 4.
Definition StatusClosed : Z := 5.

Definition EVENTLOOP_CAPACITY : nat := 100.

(** A [net.Conn]; the peer only asks it for the address of the remote end. *)
Record Conn : Type := mkConn { RemoteIP : string }.

(** A [*chan interface{}] is a reference: two entries of the requests map
    may hold the same channel. *)
Definition ChanRef : Type := positive.

(** What travels on a response channel: an error or an answer. *)
Inductive Reply : Type :=
| ReplyError (e : GoError)
| ReplyMessage (m : DiameterMessage).

(** The messages of the event loop channel. *)
Inductive Event : Type :=
| ConnectionEstablishedMsg (Connection : Conn)
| ConnectionErrorMsg (Error : GoError)
| ReadEOFMsg
| ReadErrorMsg (Error : GoError)
| WriteErrorMsg (Error : GoError)
| PeerUpMsg (DiameterHost : string)
| PeerCloseCommand
| EgressDiameterMessage (Message : DiameterMessage) (RChan : option ChanRef)
| IngressDiameterMessage (Message : DiameterMessage)
| CancelDiameterRequest (HopByHopId : N)
| WatchdogMsg.

(** What the peer writes on the control channel.  The channel carries
    [interface{}], and the WriteErrorMsg case does send it a
    PeerCloseCommand. *)
Inductive ControlEvent : Type :=
| PeerDownEvent (Error : option GoError)
| PeerUpEvent (DiameterHost : string)
| ControlPeerCloseCommand.

Inductive Metric : Type :=
| DiameterRequestSent
| DiameterAnswerSent
| DiameterRequestReceived
| DiameterAnswerReceived
| DiameterAnswerDiscarded
| DiameterRequestTimeout.

(** The operations of the event loop that the rest of the system can
    observe, in program order. *)
Inductive Effect : Type :=
| EvLoopSend (ev : Event)                   (* dp.eventLoopChannel <- ev *)
| ControlSend (ev : ControlEvent)           (* dp.ControlChannel <- ev *)
| ConnWrite (m : DiameterMessage)           (* m.WriteTo(dp.connection) *)
| ConnClose                                 (* dp.connection.Close() *)
| CancelConnect                             (* dp.cancel() *)
| ChanSend (ch : ChanRef) (r : Reply)       (* *ch <- r *)
| ChanClose (ch : ChanRef)                  (* close( *ch) *)
| Instrument (k : Metric) (host : string) (m : DiameterMessage)
| TickerStop                                (* dp.watchdogTicker.Stop() *)
| StartReadLoop                             (* go dp.readLoop(...) *)
| SpawnHandler (m : DiameterMessage)        (* go func() { dp.handler(m) ... } *)
| WaitReadLoop.                             (* <-dp.readLoopChannel *)

Definition MessageHandler : Type :=
  DiameterMessage -> DiameterMessage * option GoError.

Record DiameterPeer : Type := mkPeer {
  ci : Config.ConfigurationManager;
  PeerConfig : Config.DiameterPeer;
  status : Z;
  connection : option Conn;
  (* whether the read loop has been started (readLoopChannel != nil) *)
  readLoopChannel : bool;
  (* whether the connect goroutine has stored its canceller (cancel != nil) *)
  cancel : bool;
  requestsMap : gmap N ChanRef;
  handler : MessageHandler;
  (* period of the current ticker, in milliseconds *)
  watchdogTicker : Z;
  outstandingDWA : Z
}.

Definition set_status (v : Z) (dp : DiameterPeer) : DiameterPeer :=
  mkPeer (ci dp) (PeerConfig dp) v (connection dp) (readLoopChannel dp) (cancel dp)
         (requestsMap dp) (handler dp) (watchdogTicker dp) (outstandingDWA dp).
Definition set_PeerConfig (v : Config.DiameterPeer) (dp : DiameterPeer) : DiameterPeer :=
  mkPeer (ci dp) v (status dp) (connection dp) (readLoopChannel dp) (cancel dp)
         (requestsMap dp) (handler dp) (watchdogTicker dp) (outstandingDWA dp).
Definition set_connection (v : option Conn) (dp : DiameterPeer) : DiameterPeer :=
  mkPeer (ci dp) (PeerConfig dp) (status dp) v (readLoopChannel dp) (cancel dp)
         (requestsMap dp) (handler dp) (watchdogTicker dp) (outstandingDWA dp).
Definition set_readLoopChannel (v : bool) (dp : DiameterPeer) : DiameterPeer :=
  mkPeer (ci dp) (PeerConfig dp) (status dp) (connection dp) v (cancel dp)
         (requestsMap dp) (handler dp) (watchdogTicker dp) (outstandingDWA dp).
Definition set_requestsMap (v : gmap N ChanRef) (dp : DiameterPeer) : DiameterPeer :=
  mkPeer (ci dp) (PeerConfig dp) (status dp) (connection dp) (readLoopChannel dp) (cancel dp)
         v (handler dp) (watchdogTicker dp) (outstandingDWA dp).
Definition set_watchdogTicker (v : Z) (dp : DiameterPeer) : DiameterPeer :=
  mkPeer (ci dp) (PeerConfig dp) (status dp) (connection dp) (readLoopChannel dp) (cancel dp)
         (requestsMap dp) (handler dp) v (outstandingDWA dp).
Definition set_outstandingDWA (v : Z) (dp : DiameterPeer) : DiameterPeer :=
  mkPeer (ci dp) (PeerConfig dp) (status dp) (connection dp) (readLoopChannel dp) (cancel dp)
         (requestsMap dp) (handler dp) (watchdogTicker dp) v.

(** ** Actions of the event loop: state, trace and panics *)

Inductive Res (A : Type) : Type :=
| Done (a : A) (dp : DiameterPeer) (tr : list Effect)
| Panicked (msg : string) (dp : DiameterPeer) (tr : list Effect).
Arguments Done {A} a dp tr.
Arguments Panicked {A} msg dp tr.

Definition peerOf {A : Type} (r : Res A) : DiameterPeer :=
  match r with Done _ dp _ => dp | Panicked _ dp _ => dp end.
Definition traceOf {A : Type} (r : Res A) : list Effect :=
  match r with Done _ _ tr => tr | Panicked _ _ tr => tr end.

Definition Act (A : Type) : Type := DiameterPeer -> Res A.

Definition act_ret {A : Type} (a : A) : Act A := fun dp => Done a dp [].

Definition act_bind {A B : Type} (m : Act A) (k : A -> Act B) : Act B :=
  fun dp =>
    match m dp with
    | Done a dp1 tr1 =>
      match k a dp1 with
      | Done b dp2 tr2 => Done b dp2 (tr1 ++ tr2)
      | Panicked msg dp2 tr2 => Panicked msg dp2 (tr1 ++ tr2)
      end
    | Panicked msg dp1 tr1 => Panicked msg dp1 tr1
    end.

#[global] Instance Act_ret : MRet Act := @act_ret.
#[global] Instance Act_bind : MBind Act := fun A B k m => act_bind m k.

Definition emit (e : Effect) : Act unit := fun dp => Done tt dp [e].
Definition get : Act DiameterPeer := fun dp => Done dp dp [].
Definition modify (f : DiameterPeer -> DiameterPeer) : Act unit :=
  fun dp => Done tt (f dp) [].
Definition panic {A : Type} (msg : string) : Act A := fun dp => Panicked msg dp [].
Definition when (b : bool) (m : Act unit) : Act unit := if b then m else act_ret tt.
Definition skip : Act unit := act_ret tt.

(** What the environment decides during one iteration of the loop: whether
    a write on the socket fails, and the identifiers that
    NewInstanceDiameterRequest draws. *)
Record Env : Type := mkEnv {
  writeError : option GoError;
  freshHopByHopId : N;
  freshEndToEndId : N
}.

Definition quietEnv : Env := mkEnv None 0 0.

(** ** pushCEAttributes *)

Definition pushCEAttributes (c : Config.ConfigurationManager)
    (cer : DiameterMessage) : DiameterMessage :=
  let serverConf := Config.DiameterServerConf c in
  let cer :=
    if negb (String.eqb (Config.BindAddress serverConf) "0.0.0.0")
    then Add cer "Host-IP-Address" (VString (Config.BindAddress serverConf))
    else cer in
  let cer := Add cer "Vendor-Id" (VInt (Config.VendorId serverConf)) in
  let cer := Add cer "Product-Name" (VString "igor") in
  let cer := Add cer "Firmware-Revision" (VInt (Config.FirmwareRevision serverConf)) in
  let cer := Add cer "Origin-State-Id" (VInt 1) in
  fst (fold_left
    (fun (acc : DiameterMessage * bool) (rule : Config.DiameterRoutingRule) =>
       let (cer, relaySet) := acc in
       if negb (String.eqb (Config.RuleApplicationId rule) "*") then
         match Config.AppByName c !! Config.RuleApplicationId rule with
         | Some appDict =>
           if strContains (Config.AppType appDict) "auth"
           then (Add cer "Auth-Application-Id" (VInt (Config.Code appDict)), relaySet)
           else if strContains (Config.AppType appDict) "acct"
           then (Add cer "Acct-Application-Id," (VInt (Config.Code appDict)), relaySet)
           else (cer, relaySet)
         | None => (cer, relaySet)
         end
       else if negb relaySet then
         (Add (Add cer "Auth-Application-Id" (VString "Relay"))
              "Acct-Application-Id" (VString "Relay"), true)
       else (cer, relaySet))
    (Config.RoutingRulesConf c) (cer, false)).

(** ** handleCER

    Returns the pair (origin host, error) of the Go function. *)
Definition handleCER (request : DiameterMessage) : Act (string * option GoError) :=
  dp ← get;
  if negb (status dp =? StatusConnected)%Z then
    act_ret (EmptyString, Some "received CER when status in not connected")
  else
    sendErrorMessage ←
      match GetAVP request "Origin-Host" with
      | Some originHostAVP =>
        let originHost := GetString originHostAVP in
        match connection dp with
        | None => panic "nil connection"
        | Some conn =>
          let remoteIPAddr := RemoteIP conn in
          let peersConf := Config.PeersConf (ci dp) in
          if Config.ValidateIncomingAddress peersConf originHost remoteIPAddr then
            match Config.FindPeer peersConf originHost with
            | Some peerConfig =>
              modify (set_PeerConfig peerConfig) ;;
              let cea := NewInstanceDiameterAnswer (ci dp) request in
              let cea := Add cea "Result-Code" (VInt DIAMETER_SUCCESS) in
              let cea := pushCEAttributes (ci dp) cea in
              emit (EvLoopSend (EgressDiameterMessage cea None)) ;;
              act_ret (inl originHost)
            | None => act_ret (inr true)
            end
          else act_ret (inr true)
        end
      | None => act_ret (inr false)
      end;
    match sendErrorMessage with
    | inl originHost => act_ret (originHost, None)
    | inr send =>
      when send (
        let cea := NewInstanceDiameterAnswer (ci dp) request in
        let cea := Add cea "Result-Code" (VInt DIAMETER_UNKNOWN_PEER) in
        emit (EvLoopSend (EgressDiameterMessage cea None))) ;;
      act_ret (EmptyString, Some "Bad CEA")
    end.

(** ** The event loop

    [eventLoopCase] is the body of the type switch of eventLoop: what the
    loop does with one message taken from its channel.  [Next] stands for
    going round the for loop once more, [Exit] for the return statements. *)

Inductive LoopCtl : Type := Next | Exit.

Definition sendReply (rchan : option ChanRef) (r : Reply) : Act unit :=
  match rchan with
  | Some ch => emit (ChanSend ch r)
  | None => skip
  end.

(** [v.Message.WriteTo(dp.connection)]. *)
Definition writeTo (env : Env) (m : DiameterMessage) : Act (option GoError) :=
  dp ← get;
  match connection dp with
  | None => panic "nil connection"
  | Some _ => emit (ConnWrite m) ;; mret (writeError env)
  end.

Definition eventLoopCase (env : Env) (v : Event) : Act LoopCtl :=
  match v with

  | ConnectionEstablishedMsg conn =>
    modify (set_connection (Some conn)) ;;
    modify (set_readLoopChannel true) ;;
    emit StartReadLoop ;;
    modify (set_status StatusConnected) ;;
    dp ← get;
    match NewInstanceDiameterRequest (ci dp) "Base" "Capabilities-Exchange"
            (freshHopByHopId env) (freshEndToEndId env) with
    | None => panic "could not create a CER"
    | Some cer =>
      let cer := pushCEAttributes (ci dp) cer in
      emit (EvLoopSend (EgressDiameterMessage cer None)) ;;
      mret Next
    end

  | ConnectionErrorMsg err =>
    modify (set_status StatusClosed) ;;
    emit (ControlSend (PeerDownEvent (Some err))) ;;
    mret Exit

  | ReadEOFMsg =>
    modify (set_status StatusClosed) ;;
    emit (ControlSend (PeerDownEvent None)) ;;
    mret Exit

  | ReadErrorMsg err =>
    modify (set_status StatusClosed) ;;
    emit (ControlSend (PeerDownEvent (Some err))) ;;
    mret Exit

  | WriteErrorMsg err =>
    modify (set_status StatusClosing) ;;
    emit (ControlSend ControlPeerCloseCommand) ;;
    mret Next

  | PeerUpMsg host =>
    modify (set_status StatusEngaged) ;;
    emit (ControlSend (PeerUpEvent host)) ;;
    emit TickerStop ;;
    dp ← get;
    modify (set_watchdogTicker (Config.WatchdogIntervalMillis (PeerConfig dp))) ;;
    mret Next

  | PeerCloseCommand =>
    modify (set_status StatusClosed) ;;
    dp ← get;
    when (cancel dp) (emit CancelConnect) ;;
    when (bool_decide (is_Some (connection dp))) (emit ConnClose) ;;
    (* TODO: Generate error for all outstanding requests *)
    emit (ControlSend (PeerDownEvent None)) ;;
    mret Exit

  | EgressDiameterMessage m rchan =>
    dp ← get;
    if ((status dp =? StatusConnected) || (status dp =? StatusEngaged))%Z then
      let hbhId := HopByHopId m in
      if bool_decide (is_Some (requestsMap dp !! hbhId)) && bool_decide (is_Some rchan)
      then
        sendReply rchan (ReplyError "Duplicated HopByHopId") ;;
        mret Next
      else
        err ← writeTo env m;
        match err with
        | Some e =>
          emit (EvLoopSend (WriteErrorMsg e)) ;;
          modify (set_status StatusClosing) ;;
          when (IsRequest m && bool_decide (is_Some rchan))
               (sendReply rchan (ReplyError e))
        | None => skip
        end ;;
        (if IsRequest m && bool_decide (is_Some rchan) then
           dp ← get;
           emit (Instrument DiameterRequestSent (Config.DiameterHost (PeerConfig dp)) m) ;;
           match rchan with
           | Some ch => modify (fun dp => set_requestsMap (<[HopByHopId m := ch]> (requestsMap dp)) dp)
           | None => skip
           end
         else
           dp ← get;
           emit (Instrument DiameterAnswerSent (Config.DiameterHost (PeerConfig dp)) m)) ;;
        mret Next
    else
      mret Next

  | IngressDiameterMessage m =>
    dp ← get;
    if IsRequest m then
      emit (Instrument DiameterRequestReceived (Config.DiameterHost (PeerConfig dp)) m) ;;
      if (ApplicationId m =? 0)%Z then
        if String.eqb (CommandName m) "Capabilities-Exchange" then
          r ← handleCER m;
          match r with
          | (_, Some _) =>
            emit (EvLoopSend PeerCloseCommand) ;;
            mret Next
          | (originHost, None) =>
            modify (set_status StatusEngaged) ;;
            emit (EvLoopSend (PeerUpMsg originHost)) ;;
            mret Next
          end
        else if String.eqb (CommandName m) "Device-Watchdog" then
          let dwa := NewInstanceDiameterAnswer (ci dp) m in
          let dwa := Add dwa "Result-Code" (VInt DIAMETER_SUCCESS) in
          emit (EvLoopSend (EgressDiameterMessage dwa None)) ;;
          mret Next
        else if String.eqb (CommandName m) "Disconnect-Peer" then
          let dpa := NewInstanceDiameterAnswer (ci dp) m in
          emit (EvLoopSend (EgressDiameterMessage dpa None)) ;;
          emit (EvLoopSend PeerCloseCommand) ;;
          modify (set_status StatusClosing) ;;
          mret Next
        else
          mret Next
      else
        emit (SpawnHandler m) ;;
        mret Next
    else
      emit (Instrument DiameterAnswerReceived (Config.DiameterHost (PeerConfig dp)) m) ;;
      if (ApplicationId m =? 0)%Z then
        if String.eqb (CommandName m) "Capabilities-Exchange" then
          let doDisconnect :=
            match GetAVP m "Origin-Host" with
            | None => true
            | Some originHostAVP =>
              if negb (String.eqb (GetString originHostAVP)
                                  (Config.DiameterHost (PeerConfig dp))) then true
              else if negb (GetResultCode m =? DIAMETER_SUCCESS)%Z then true
              else false
            end in
          if doDisconnect then
            modify (set_status StatusClosing) ;;
            emit (EvLoopSend PeerCloseCommand) ;;
            mret Next
          else
            emit (EvLoopSend (PeerUpMsg (Config.DiameterHost (PeerConfig dp)))) ;;
            mret Next
        else if String.eqb (CommandName m) "Device-Watchdog" then
          if negb (GetResultCode m =? DIAMETER_SUCCESS)%Z then
            emit (EvLoopSend PeerCloseCommand) ;;
            modify (set_status StatusClosing) ;;
            mret Next
          else
            modify (fun dp => set_outstandingDWA (wrap_int (outstandingDWA dp - 1)) dp) ;;
            mret Next
        else
          mret Next
      else
        match requestsMap dp !! HopByHopId m with
        | None =>
          emit (Instrument DiameterAnswerDiscarded (Config.DiameterHost (PeerConfig dp)) m) ;;
          mret Next
        | Some respChann =>
          emit (ChanSend respChann (ReplyMessage m)) ;;
          emit (ChanClose respChann) ;;
          modify (fun dp => set_requestsMap (delete (HopByHopId m) (requestsMap dp)) dp) ;;
          mret Next
        end

  | CancelDiameterRequest hbh =>
    dp ← get;
    match requestsMap dp !! hbh with
    | None => mret Next
    | Some respChann =>
      emit (ChanClose respChann) ;;
      modify (fun dp => set_requestsMap (delete hbh (requestsMap dp)) dp) ;;
      mret Next
    end

  | WatchdogMsg =>
    let maxOustandingDWA := 2%Z in
    dp ← get;
    when (outstandingDWA dp >? maxOustandingDWA)%Z
         (emit (EvLoopSend PeerCloseCommand)) ;;
    match NewInstanceDiameterRequest (ci dp) "Base" "Device-Watchdog"
            (freshHopByHopId env) (freshEndToEndId env) with
    | None => panic "could not create a DWR"
    | Some dwr =>
      emit (EvLoopSend (EgressDiameterMessage dwr None)) ;;
      modify (fun dp => set_outstandingDWA (wrap_int (outstandingDWA dp + 1)) dp) ;;
      mret Next
    end
  end.

(** The ticker branch of the select of eventLoop: what the loop sends
    itself when the watchdog ticker fires. *)
Definition onTicker (dp : DiameterPeer) : list Event :=
  if (status dp =? StatusEngaged)%Z then [WatchdogMsg] else [].

(** The goroutine started for a request that is not of the base
    application: the messages it sends to the event loop. *)
Definition handlerTask (dp : DiameterPeer) (m : DiameterMessage) : list Event :=
  match handler dp m with
  | (_, Some _) => []
  | (resp, None) => [EgressDiameterMessage resp None]
  end.

(** The function deferred by eventLoop, run when the loop returns. *)
Definition deferred (dp : DiameterPeer) : list Effect :=
  [TickerStop]
  ++ (if bool_decide (is_Some (connection dp)) then [ConnClose] else [])
  ++ (if readLoopChannel dp then [WaitReadLoop] else []).

(** The messages an iteration sends to the loop's own channel. *)
Definition selfSent (tr : list Effect) : list Event :=
  omap (fun e => match e with EvLoopSend ev => Some ev | _ => None end) tr.

Inductive LoopEnd : Type :=
| Waiting                 (* the channel is empty: blocked in the select *)
| Returned                (* eventLoop returned *)
| Crashed (msg : string)  (* panic *)
| OutOfFuel.

Record LoopResult : Type := mkLoopResult {
  finalPeer : DiameterPeer;
  loopTrace : list Effect;
  loopEnd : LoopEnd
}.

(** The for loop of eventLoop, run on the content [chan] of the event loop
    channel until the channel is empty.  What an iteration sends with
    [dp.eventLoopChannel <- ...] joins the channel at its end.  The channel
    has room for EVENTLOOP_CAPACITY messages; the loop is run here on
    channels that never fill up.  [envs] gives the environment of each
    iteration, [quietEnv] when it runs out. *)
Fixpoint eventLoopFrom (fuel : nat) (envs : list Env) (chan : list Event)
    (dp : DiameterPeer) (tr : list Effect) : LoopResult :=
  match chan with
  | [] => mkLoopResult dp tr Waiting
  | v :: chan' =>
    match fuel with
    | O => mkLoopResult dp tr OutOfFuel
    | S fuel' =>
      match eventLoopCase (hd quietEnv envs) v dp with
      | Done Next dp' tr' =>
        eventLoopFrom fuel' (tl envs) (chan' ++ selfSent tr') dp' (tr ++ tr')
      | Done Exit dp' tr' =>
        mkLoopResult dp' (tr ++ tr' ++ deferred dp') Returned
      | Panicked msg dp' tr' =>
        mkLoopResult dp' (tr ++ tr' ++ deferred dp') (Crashed msg)
      end
    end
  end.

(** eventLoop starts by installing a ticker that never fires in practice
    (999999 hours). *)
Definition eventLoop (fuel : nat) (envs : list Env) (chan : list Event)
    (dp : DiameterPeer) : LoopResult :=
  eventLoopFrom fuel envs chan
    (set_watchdogTicker (999999 * 3600 * 1000) dp) [].

(** The loop going on from a state it reached earlier. *)
Definition eventLoopResume (fuel : nat) (envs : list Env) (chan : list Event)
    (dp : DiameterPeer) : LoopResult :=
  eventLoopFrom fuel envs chan dp [].

(** ** DiameterRequest

    The method runs on the caller's goroutine.  [ch] is the response
    channel it creates; [sel] is the branch its select takes. *)

Inductive SelectOutcome : Type :=
| TimerFired
| ResponseReceived (r : option Reply).   (* None: the channel was closed *)

Inductive CallerEffect : Type :=
| CallerSend (ev : Event)                 (* dp.eventLoopChannel <- ev *)
| CallerInstrument (k : Metric) (host : string) (m : DiameterMessage)
| TimerStop.

Inductive RequestResult : Type :=
| Answer (resp : DiameterMessage)
| Failure (e : GoError)
| RequestPanic (msg : string).

Definition DiameterRequest (dp : DiameterPeer) (dm : DiameterMessage)
    (ch : ChanRef) (sel : SelectOutcome) : RequestResult * list CallerEffect :=
  if (ApplicationId dm =? 0)%Z then
    (Failure "should not use this method to send a Base Application message", [])
  else if negb (status dp =? StatusEngaged)%Z then
    (Failure "tried to send a diameter request in a non engaged DiameterPeer", [])
  else if negb (IsRequest dm) then
    (Failure "Diameter message is not a request", [])
  else
    let sent := [CallerSend (EgressDiameterMessage dm (Some ch))] in
    match sel with
    | TimerFired =>
      (Failure "Timeout",
       (sent ++ [CallerSend (CancelDiameterRequest (HopByHopId dm));
                 CallerInstrument DiameterRequestTimeout
                   (Config.DiameterHost (PeerConfig dp)) dm])%list)
    | ResponseReceived r =>
      match r with
      | Some (ReplyError e) => (Failure e, (sent ++ [TimerStop])%list)
      | Some (ReplyMessage v) => (Answer v, (sent ++ [TimerStop])%list)
      | None =>
        (RequestPanic "unreachable code in diampeer.DiameterRequest",
         (sent ++ [TimerStop])%list)
      end
    end.

(** The messages a call puts on the event loop channel. *)
Definition callerSent (tr : list CallerEffect) : list Event :=
  omap (fun e => match e with CallerSend ev => Some ev | _ => None end) tr.

End Diampeer.

(* ===================================================================== *)
(** * core: the FreeRADIUS dictionary parser *)
(* ===================================================================== *)

Module Core.
Import Stdlib.Strings.Ascii.
Import Stdlib.Strings.String (string_of_list_ascii, list_ascii_of_string).

(** ** The library functions the parser calls

    Go strings are byte strings; a [string] here is the list of its bytes.
    White space is the ASCII white space of [unicode.IsSpace]: the
    dictionary files are ASCII text. *)

Definition isSpace (c : ascii) : bool :=
  let n := N_of_ascii c in
  ((9 <=? n) && (n <=? 13) || (n =? 32))%N.

Definition isDigit (c : ascii) : bool :=
  let n := N_of_ascii c in ((48 <=? n) && (n <=? 57))%N.

Fixpoint trimLeft (s : list ascii) : list ascii :=
  match s with
  | c :: s' => if isSpace c then trimLeft s' else s
  | [] => []
  end.

(** [strings.TrimSpace]. *)
Definition TrimSpace (s : string) : string :=
  string_of_list_ascii
    (rev (trimLeft (rev (trimLeft (list_ascii_of_string s))))).

(** [strings.HasPrefix]. *)
Definition HasPrefix (s p : string) : bool := String.prefix p s.

(** [strings.IndexByte]; [None] stands for -1. *)
Fixpoint IndexByte (s : string) (c : ascii) : option nat :=
  match s with
  | EmptyString => None
  | String a s' =>
    if Ascii.eqb a c then Some O
    else match IndexByte s' c with Some i => Some (S i) | None => None end
  end.

(** The slice [s[:n]]. *)
Definition sliceTo (s : string) (n : nat) : string := String.substring 0 n s.

Fixpoint fieldsFrom (cur : list ascii) (s : list ascii) : list string :=
  match s with
  | [] =>
    match cur with [] => [] | _ => [string_of_list_ascii (rev cur)] end
  | c :: s' =>
    if isSpace c then
      match cur with
      | [] => fieldsFrom [] s'
      | _ => string_of_list_ascii (rev cur) :: fieldsFrom [] s'
      end
    else fieldsFrom (c :: cur) s'
  end.

(** [strings.Fields]. *)
Definition Fields (s : string) : list string :=
  fieldsFrom [] (list_ascii_of_string s).

Fixpoint splitFrom (sep : ascii) (cur : list ascii) (s : list ascii) : list string :=
  match s with
  | [] => [string_of_list_ascii (rev cur)]
  | c :: s' =>
    if Ascii.eqb c sep
    then string_of_list_ascii (rev cur) :: splitFrom sep [] s'
    else splitFrom sep (c :: cur) s'
  end.

(** [strings.Split(s, ",")]. *)
Definition SplitComma (s : string) : list string :=
  splitFrom ","%char [] (list_ascii_of_string s).

Fixpoint digitsValue (s : string) (acc : Z) : option Z :=
  match s with
  | EmptyString => Some acc
  | String c s' =>
    if isDigit c
    then digitsValue s' (10 * acc + (Z.of_N (N_of_ascii c) - 48))%Z
    else None
  end.

(** [strconv.Atoi]: an optional sign and at least one decimal digit, the
    value within the range of int; [None] stands for the error. *)
Definition Atoi (s : string) : option Z :=
  let signed (neg : bool) (body : string) : option Z :=
    match body with
    | EmptyString => None
    | _ =>
      match digitsValue body 0 with
      | Some n =>
        let z := if neg then (- n)%Z else n in
        if ((- 2 ^ 63 <=? z) && (z <=? 2 ^ 63 - 1))%Z then Some z else None
      | None => None
      end
    end in
  match s with
  | EmptyString => None
  | String c s' =>
    if Ascii.eqb c "-"%char then signed true s'
    else if Ascii.eqb c "+"%char then signed false s'
    else signed false s
  end.

(** bufio.MaxScanTokenSize: a line and its newline have to fit in the
    scanner's buffer. *)
Definition MaxScanTokenSize : N := 65536.

Definition dropCR (cur : list ascii) : string :=
  string_of_list_ascii
    (rev (match cur with
          | c :: cur' => if Ascii.eqb c "013"%char then cur' else cur
          | [] => []
          end)).

Definition fitsToken (cur : list ascii) : bool :=
  (N.of_nat (length cur) <? MaxScanTokenSize)%N.

(** The tokens of a [bufio.Scanner] with the default split function
    (ScanLines): the lines without their end-of-line marker.  Scan gives up
    at a line that does not fit its buffer; the parser does not look at
    scanner.Err() and takes that for the end of input. *)
Fixpoint scanFrom (cur : list ascii) (s : list ascii) : list string :=
  match s with
  | [] =>
    match cur with
    | [] => []
    | _ => if fitsToken cur then [dropCR cur] else []
    end
  | c :: s' =>
    if Ascii.eqb c "010"%char then
      if fitsToken cur then dropCR cur :: scanFrom [] s' else []
    else scanFrom (c :: cur) s'
  end.

Definition scanLines (data : string) : list string :=
  scanFrom [] (list_ascii_of_string data).

(** ** The dictionary being built *)

Record jVendor : Type := mkVendor {
  VendorId : Z;
  VendorName : string
}.

Record jRadiusAVP : Type := mkRadiusAVP {
  Code : Z;
  Name : string;
  Type_ : string;
  Tagged : bool;
  Encrypted : bool;
  Salted : bool;
  Withlen : bool;
  (* None is the nil map *)
  EnumValues : option (gmap string Z)
}.

Record jRadiusVendorAVPs : Type := mkVendorAVPs {
  AVPsVendorId : Z;
  Attributes : list jRadiusAVP
}.

Record jRadiusDict : Type := mkDict {
  Vendors : list jVendor;
  Avps : list jRadiusVendorAVPs
}.

(** How a call ends: it returns nil or an error, panics, or (in this
    model) runs out of the fuel that bounds the nesting of $INCLUDE. *)
Inductive Outcome (A : Type) : Type :=
| Ok (a : A)
| Err (e : GoError)
| Panic (msg : string)
| OutOfFuel.
Arguments Ok {A} a.
Arguments Err {A} e.
Arguments Panic {A} msg.
Arguments OutOfFuel {A}.

(** ** parseRadiusType *)

Definition parseRadiusType (t : string) : Outcome string :=
  if (String.eqb t "integer" || String.eqb t "byte" || String.eqb t "short"
      || String.eqb t "signed" || String.eqb t "time_delta") then Ok "Integer"
  else if String.eqb t "string" then Ok "String"
  else if (String.eqb t "octets" || String.eqb t "abinary" || String.eqb t "struct")
  then Ok "Octets"
  else if String.eqb t "ipaddr" then Ok "Address"
  else if String.eqb t "date" then Ok "Time"
  else if String.eqb t "ipv6addr" then Ok "IPv6Address"
  else if String.eqb t "ipv6prefix" then Ok "IPv6Prefix"
  else if String.eqb t "ifid" then Ok "InterfaceId"
  else if String.eqb t "integer64" then Ok "Integer64"
  else if String.eqb t "vsa" then Ok "VSA"
  else if HasPrefix t "octets" then Ok "octets"
  else Panic ("unrecognized attribute type " ++ t).

(** ** ParseFreeradiusDictionary *)

(** The option flags of an ATTRIBUTE line: tagged, encrypted, salted,
    withlen. *)
Record attrFlags : Type := mkFlags {
  tagged : bool;
  encrypted : bool;
  salted : bool;
  withlen : bool
}.

(** The loop over the comma separated options; [None] is the return of
    the "invalid ATTRIBUTE" error. *)
Fixpoint parseOptions (options : list string) (f : attrFlags) : option attrFlags :=
  match options with
  | [] => Some f
  | option :: rest =>
    if String.eqb option "has_tag" then
      parseOptions rest (mkFlags true (encrypted f) (salted f) (withlen f))
    else if String.eqb option "encrypt=1" then
      parseOptions rest (mkFlags (tagged f) true (salted f) (withlen f))
    else if String.eqb option "encrypt=2" then
      parseOptions rest (mkFlags (tagged f) (encrypted f) true true)
    else if String.eqb option "encrypt=8" then
      parseOptions rest (mkFlags true (encrypted f) true (withlen f))
    else if String.eqb option "encrypt=9" then
      parseOptions rest (mkFlags (tagged f) (encrypted f) true (withlen f))
    else if String.eqb option "abinary" then
      parseOptions rest f
    else None
  end.

(** [dict.Avps[idx].Attributes = f(dict.Avps[idx].Attributes)]. *)
Definition updateAttributes (dict : jRadiusDict) (idx : nat)
    (f : list jRadiusAVP -> list jRadiusAVP) : Outcome jRadiusDict :=
  match Avps dict !! idx with
  | None => Panic "index out of range"
  | Some va =>
    Ok (mkDict (Vendors dict)
          (<[idx := mkVendorAVPs (AVPsVendorId va) (f (Attributes va))]> (Avps dict)))
  end.

(** The loop of the VALUE case: the first attribute with that name gets
    the item. *)
Fixpoint addEnumValue (attrs : list jRadiusAVP) (name item : string) (val : Z)
    : list jRadiusAVP :=
  match attrs with
  | [] => []
  | attr :: rest =>
    if String.eqb (Name attr) name then
      let values := match EnumValues attr with Some vs => vs | None => ∅ end in
      mkRadiusAVP (Code attr) (Name attr) (Type_ attr) (Tagged attr) (Encrypted attr)
        (Salted attr) (Withlen attr) (Some (<[item := val]> values)) :: rest
    else attr :: addEnumValue rest name item val
  end.

(** The first index of [dict.Avps] for that vendor, if any. *)
Fixpoint findVendorAVPs (avps : list jRadiusVendorAVPs) (vendorId : Z) (i : nat)
    : option nat :=
  match avps with
  | [] => None
  | va :: rest =>
    if (AVPsVendorId va =? vendorId)%Z then Some i
    else findVendorAVPs rest vendorId (S i)
  end.

(** The words of a line as the loop computes them: the line trimmed, cut
    at its first '#', split at white space.  A line that starts with '#'
    has none. *)
Definition lineOf (text : string) : string :=
  let line := TrimSpace text in
  if HasPrefix line "#" then EmptyString
  else match IndexByte line "#"%char with
       | Some cpos => sliceTo line cpos
       | None => line
       end.


(** The state of one call: the dictionary (shared with the calls for the
    included files) and currentVendorAVPsIndex (local to the call). *)
Definition ParserState : Type := (jRadiusDict * nat)%type.

(** One iteration of the scanner loop.  [include] is the recursive call of
    ParseFreeradiusDictionary for an $INCLUDE directive.  An index
    expression on a word that is not there panics. *)
Definition parseLine (include : string -> jRadiusDict -> Outcome jRadiusDict)
    (text : string) (st : ParserState) : Outcome ParserState :=
  let '(dict, currentVendorAVPsIndex) := st in
  let line := lineOf text in
  let words := Fields line in
  match words with
  | [] => Ok st
  | w0 :: _ =>
    if String.eqb w0 "$INCLUDE" then
      match words !! 1%nat with
      | None => Panic "index out of range"
      | Some w1 =>
        match include w1 dict with
        | Ok dict' => Ok (dict', currentVendorAVPsIndex)
        | Err e => Err ("dictionary " ++ w1 ++ " with error " ++ e)
        | Panic msg => Panic msg
        | OutOfFuel => OutOfFuel
        end
      end
    else if String.eqb w0 "VENDOR" then
      match words !! 2%nat, words !! 1%nat with
      | Some w2, Some w1 =>
        match Atoi w2 with
        | None => Err ("invalid VENDOR " ++ line)
        | Some vendorId =>
          Ok (mkDict (Vendors dict ++ [mkVendor (to_uint32 vendorId) w1])
                     (Avps dict ++ [mkVendorAVPs (to_uint32 vendorId) []]),
              currentVendorAVPsIndex)
        end
      | _, _ => Panic "index out of range"
      end
    else if String.eqb w0 "BEGIN-VENDOR" then
      match words !! 1%nat with
      | None => Panic "index out of range"
      | Some w1 =>
        let vendorId :=
          match List.find (fun v => String.eqb (VendorName v) w1) (Vendors dict) with
          | Some v => VendorId v
          | None => 0%Z
          end in
        if (vendorId =? 0)%Z then Err ("vendor " ++ w1 ++ " not found")
        else
          match findVendorAVPs (Avps dict) vendorId 0 with
          | Some i => Ok (dict, i)
          | None => Ok (dict, currentVendorAVPsIndex)
          end
      end
    else if String.eqb w0 "END-VENDOR" then
      Ok (dict, 0%nat)
    else if String.eqb w0 "ATTRIBUTE" then
      match words with
      | _ :: w1 :: w2 :: w3 :: more =>
        match Atoi w2 with
        | None => Err ("invalid ATTRIBUTE " ++ line)
        | Some code =>
          let flags :=
            match more with
            | w4 :: _ => parseOptions (SplitComma w4) (mkFlags false false false false)
            | [] => Some (mkFlags false false false false)
            end in
          match flags with
          | None => Err ("invalid ATTRIBUTE " ++ line)
          | Some f =>
            match parseRadiusType w3 with
            | Ok radiusType =>
              if negb (String.eqb radiusType "VSA") then
                let avp := mkRadiusAVP (to_byte code) w1 radiusType (tagged f)
                             (encrypted f) (salted f) (withlen f) None in
                match updateAttributes dict currentVendorAVPsIndex
                        (fun attrs => (attrs ++ [avp])%list) with
                | Ok dict' => Ok (dict', currentVendorAVPsIndex)
                | Err e => Err e
                | Panic msg => Panic msg
                | OutOfFuel => OutOfFuel
                end
              else Ok st
            | Err e => Err e
            | Panic msg => Panic msg
            | OutOfFuel => OutOfFuel
            end
          end
        end
      | _ => Err ("invalid ATTRIBUTE " ++ line)
      end
    else if String.eqb w0 "VALUE" then
      match words with
      | _ :: w1 :: w2 :: w3 :: _ =>
        match Atoi w3 with
        | None => Err ("invalid VALUE " ++ line)
        | Some val =>
          match updateAttributes dict currentVendorAVPsIndex
                  (fun attrs => addEnumValue attrs w1 w2 val) with
          | Ok dict' => Ok (dict', currentVendorAVPsIndex)
          | Err e => Err e
          | Panic msg => Panic msg
          | OutOfFuel => OutOfFuel
          end
        end
      | _ => Err ("invalid VALUE " ++ line)
      end
    else Ok st
  end.

(** The scanner loop: the lines in order, until one returns or panics. *)
Fixpoint parseLines (include : string -> jRadiusDict -> Outcome jRadiusDict)
    (lines : list string) (st : ParserState) : Outcome ParserState :=
  match lines with
  | [] => Ok st
  | text :: rest =>
    match parseLine include text st with
    | Ok st' => parseLines include rest st'
    | Err e => Err e
    | Panic msg => Panic msg
    | OutOfFuel => OutOfFuel
    end
  end.

(** [dict.Avps] gets the entry of the standard attributes if it is empty. *)
Definition withStandardAVPs (dict : jRadiusDict) : jRadiusDict :=
  match Avps dict with
  | [] => mkDict (Vendors dict) [mkVendorAVPs 0 []]
  | _ => dict
  end.

(** [c] is ConfigurationManager.GetBytesConfigObject: the bytes of a
    configuration object, or an error.  [Ok dict'] is the return of nil,
    with the dictionary as the call leaves it.  [fuel] bounds the depth of
    the calls for $INCLUDE, which the Go code does not bound. *)
Fixpoint ParseFreeradiusDictionary (fuel : nat) (c : string -> GoError + string)
    (configObj : string) (dict : jRadiusDict) : Outcome jRadiusDict :=
  match fuel with
  | O => OutOfFuel
  | S fuel' =>
    match c configObj with
    | inl err => Err err
    | inr dictBytes =>
      match parseLines (ParseFreeradiusDictionary fuel' c) (scanLines dictBytes)
              (withStandardAVPs dict, 0%nat) with
      | Ok (dict', _) => Ok dict'
      | Err e => Err e
      | Panic msg => Panic msg
      | OutOfFuel => OutOfFuel
      end
    end
  end.

End Core.

(* ===================================================================== *)
(** * radiusserver: the UDP server socket *)
(* ===================================================================== *)

Module Radiusserver.

Definition StatusOperational : Z := 0.
Definition StatusTerminated : Z := 1.

(** Modelled from the spec: core.ACCESS_REQUEST is not under src/; the
    packet code of Access-Request. *)
Definition ACCESS_REQUEST : Z := 1.

Definition bytes : Type := list Byte.byte.

(** Modelled from the spec: core.Zero_authenticator is not under src/; the
    authenticator of sixteen zero bytes. *)
Definition Zero_authenticator : bytes := replicate 16 Byte.x00.

Record RadiusClient : Type := mkClient { Secret : string }.

(** core.RadiusPacket, with the fields the server reads. *)
Record RadiusPacket : Type := mkPacket {
  Code : Z;
  Identifier : Z;
  Attributes : bytes
}.

Record UDPAddr : Type := mkAddr { IP : string; Port : Z }.

(** The functions of package core and of the socket that readLoop calls
    and that are not under src/, taken as they are. *)
Record CoreFunctions : Type := mkCore {
  NewRadiusPacketFromBytes : bytes -> string -> bytes -> GoError + RadiusPacket;
  ValidateRequestAuthenticator : bytes -> string -> bool;
  ToBytes : RadiusPacket -> string -> Z -> GoError + bytes;
  (* the error of socket.WriteTo, if any *)
  WriteTo : bytes -> UDPAddr -> option GoError
}.

Record RadiusServer : Type := mkServer {
  (* rs.radiusClients.FindRadiusClient *)
  FindRadiusClient : string -> GoError + RadiusClient;
  handler : RadiusPacket -> RadiusPacket * option GoError;
  status : Z;
  socketClosed : bool
}.

(** What the server does that the rest of the system can observe. *)
#[local] Unset Elimination Schemes.
Inductive ServerEffect : Type :=
| RecordRadiusServerDrop (clientIPAddr code : string)
| RecordRadiusServerRequest (clientIPAddr code : string)
| RecordRadiusServerResponse (clientIPAddr code : string)
| SocketWriteTo (respBuf : bytes) (addr : UDPAddr)
| Go (child : list ServerEffect).     (* go func(...) {...}(...) *)
#[local] Set Elimination Schemes.

(** [strconv.Itoa(int(code))]. *)
Definition Itoa (code : Z) : string := pretty code.

(** RadiusServer.Close. *)
Definition Close (rs : RadiusServer) : RadiusServer :=
  mkServer (FindRadiusClient rs) (handler rs) StatusTerminated true.

Record UDPDatagram : Type := mkDatagram {
  payload : bytes;
  clientAddr : UDPAddr
}.

(** The goroutine that waits for the response of the handler. *)
Definition respond (core : CoreFunctions) (rs : RadiusServer)
    (clientIPAddr : string) (radiusPacket : RadiusPacket) (secret : string)
    (addr : UDPAddr) : list ServerEffect :=
  let code := Code radiusPacket in
  match handler rs radiusPacket with
  | (_, Some _) => [RecordRadiusServerDrop clientIPAddr (Itoa code)]
  | (response, None) =>
    match ToBytes core response secret (Identifier radiusPacket) with
    | inl _ => [RecordRadiusServerDrop clientIPAddr (Itoa code)]
    | inr respBuf =>
      match WriteTo core respBuf addr with
      | Some _ => [SocketWriteTo respBuf addr;
                   RecordRadiusServerDrop clientIPAddr (Itoa code)]
      | None => [SocketWriteTo respBuf addr;
                 RecordRadiusServerResponse clientIPAddr (Itoa code)]
      end
    end
  end.

(** The body of the for loop of readLoop after a successful read.  The
    buffer holds 4096 bytes: a longer datagram is cut. *)
Definition serveDatagram (core : CoreFunctions) (rs : RadiusServer)
    (d : UDPDatagram) : list ServerEffect :=
  let reqBuf := take 4096 (payload d) in
  let clientIPAddr := IP (clientAddr d) in
  match FindRadiusClient rs clientIPAddr with
  | inl _ => [RecordRadiusServerDrop clientIPAddr "0"]
  | inr radiusClient =>
    match NewRadiusPacketFromBytes core reqBuf (Secret radiusClient) Zero_authenticator with
    | inl _ => []
    | inr radiusPacket =>
      if negb (Code radiusPacket =? ACCESS_REQUEST)%Z
         && negb (ValidateRequestAuthenticator core reqBuf (Secret radiusClient))
      then [RecordRadiusServerDrop clientIPAddr (Itoa (Code radiusPacket))]
      else
        [RecordRadiusServerRequest clientIPAddr (Itoa (Code radiusPacket));
         Go (respond core rs clientIPAddr radiusPacket (Secret radiusClient)
                     (clientAddr d))]
    end
  end.

(** What socket.ReadFrom gives the loop: a datagram, an error while the
    socket is open, or the error that follows a call of Close by another
    goroutine. *)
Inductive SocketInput : Type :=
| Datagram (d : UDPDatagram)
| ReadError (e : GoError)
| CloseCall.

Inductive ReadLoopEnd : Type :=
| Blocked                      (* waiting in socket.ReadFrom *)
| ReturnedGracefully
| PanickedWith (e : GoError).

Record ReadLoopResult : Type := mkReadLoopResult {
  finalServer : RadiusServer;
  serverTrace : list ServerEffect;
  readLoopEnd : ReadLoopEnd
}.

(** The branch of readLoop taken when ReadFrom returns an error. *)
Definition onReadError (rs : RadiusServer) (tr : list ServerEffect) (e : GoError)
    : ReadLoopResult :=
  if (status rs =? StatusTerminated)%Z
  then mkReadLoopResult rs tr ReturnedGracefully
  else mkReadLoopResult rs tr (PanickedWith e).

Fixpoint readLoopFrom (core : CoreFunctions) (rs : RadiusServer)
    (inputs : list SocketInput) (tr : list ServerEffect) : ReadLoopResult :=
  match inputs with
  | [] => mkReadLoopResult rs tr Blocked
  | Datagram d :: rest =>
    readLoopFrom core rs rest (tr ++ serveDatagram core rs d)
  | ReadError e :: _ => onReadError rs tr e
  | CloseCall :: _ => onReadError (Close rs) tr "use of closed network connection"
  end.

Definition readLoop (core : CoreFunctions) (rs : RadiusServer)
    (inputs : list SocketInput) : ReadLoopResult :=
  readLoopFrom core rs inputs [].

End Radiusserver.

(* ===================================================================== *)
(** * The statements of the specification, in the terms of the code *)
(* ===================================================================== *)

Module PeerSpec.
Import Diamcodec DiamcodecNew Diampeer.

(** A message of the base application with that command name. *)
Definition isBase (request : bool) (cmd : string) (m : DiameterMessage) : Prop :=
  IsRequest m = request /\ ApplicationId m = 0%Z /\ CommandName m = cmd.


(** The four ways in which a CER fails validation, after the
    specification. *)
Definition cerNotConnected (dp : DiameterPeer) : Prop :=
  status dp <> StatusConnected.
Definition cerNoOriginHost (m : DiameterMessage) : Prop :=
  GetAVP m "Origin-Host" = None.
Definition cerRejectedByACL (dp : DiameterPeer) (m : DiameterMessage) : Prop :=
  exists avp conn, GetAVP m "Origin-Host" = Some avp /\ connection dp = Some conn
    /\ Config.ValidateIncomingAddress (Config.PeersConf (ci dp))
         (GetString avp) (RemoteIP conn) = false.
Definition cerUnknownHost (dp : DiameterPeer) (m : DiameterMessage) : Prop :=
  exists avp conn, GetAVP m "Origin-Host" = Some avp /\ connection dp = Some conn
    /\ Config.ValidateIncomingAddress (Config.PeersConf (ci dp))
         (GetString avp) (RemoteIP conn) = true
    /\ Config.FindPeer (Config.PeersConf (ci dp)) (GetString avp) = None.
Definition cerFailsValidation (dp : DiameterPeer) (m : DiameterMessage) : Prop :=
  cerNotConnected dp \/ cerNoOriginHost m \/ cerRejectedByACL dp m \/ cerUnknownHost dp m.

(** The trace sends the loop a CEA with Result-Code DIAMETER_UNKNOWN_PEER
    to be written to the peer. *)
Definition emitsUnknownPeerCEA (tr : list Effect) : Prop :=
  exists cea, In (EvLoopSend (EgressDiameterMessage cea None)) tr
    /\ IsRequest cea = false
    /\ GetResultCode cea = DIAMETER_UNKNOWN_PEER.

(** The CEA that rejects or accepts a CER, as handleCER builds them. *)
Definition ceaUnknownPeer (dp : DiameterPeer) (cer : DiameterMessage) : DiameterMessage :=
  Add (NewInstanceDiameterAnswer (ci dp) cer) "Result-Code" (VInt DIAMETER_UNKNOWN_PEER).
Definition ceaSuccess (dp : DiameterPeer) (cer : DiameterMessage) : DiameterMessage :=
  pushCEAttributes (ci dp)
    (Add (NewInstanceDiameterAnswer (ci dp) cer) "Result-Code" (VInt DIAMETER_SUCCESS)).

(** A trace delivers nothing on a response channel. *)
Definition deliversNothing (tr : list Effect) : Prop :=
  forall ch r, ~ In (ChanSend ch r) tr.

(** A trace writes nothing on the socket. *)
Definition writesNothing (tr : list Effect) : Prop :=
  forall m, ~ In (ConnWrite m) tr.

(** ** Concrete peers and messages *)

Definition examplePeers : Config.DiameterPeers :=
  Config.mkPeers
    (fun originHost ip => String.eqb ip "10.0.0.1")
    (fun originHost =>
       if String.eqb originHost "client.igor"
       then Some (Config.mkPeerConf "client.igor" "10.0.0.1" 3868 1000 300)
       else None).

Definition exampleBase : Config.DiameterApp :=
  Config.mkApp "base" 0
    [("Capabilities-Exchange", 257%Z); ("Device-Watchdog", 280%Z);
     ("Disconnect-Peer", 282%Z)].

Definition exampleCI : Config.ConfigurationManager :=
  Config.mkCM (Config.mkServerConf "0.0.0.0" "server.igor" "igor" 9001 1)
    examplePeers [Config.mkRule "*"] (<["Base" := exampleBase]> ∅).

Definition noHandler : MessageHandler := fun m => (m, Some "no handler").

(** A passive peer right after the connection was accepted. *)
Definition passivePeer : DiameterPeer :=
  mkPeer exampleCI Config.emptyPeer StatusConnected (Some (mkConn "10.0.0.1"))
    true false ∅ noHandler 0 0.


(** An engaged peer with one request pending (hop-by-hop id 7, response
    channel 1) and three watchdog requests unanswered. *)
Definition busyPeer : DiameterPeer :=
  mkPeer exampleCI (Config.mkPeerConf "client.igor" "10.0.0.1" 3868 1000 300)
    StatusEngaged (Some (mkConn "10.0.0.1")) true true (<[7%N := 1%positive]> ∅)
    noHandler 300 3.

Definition cerFrom (originHost : option string) : DiameterMessage :=
  mkMessage true 0 "Base" 257 "Capabilities-Exchange" 11 12
    (match originHost with
     | Some h => [mkAVP "Origin-Host" (VString h)]
     | None => []
     end).


(** A request and an answer of a Gx-like application, hop-by-hop id 7. *)
Definition gxRequest : DiameterMessage :=
  mkMessage true 16777238 "Gx" 272 "Credit-Control" 7 70 [].
Definition gxAnswer : DiameterMessage :=
  mkMessage false 16777238 "Gx" 272 "Credit-Control" 7 70
    [mkAVP "Result-Code" (VInt 2001)].

End PeerSpec.

Module CoreSpec.
Import Core.






(** ** Concrete dictionaries *)



Definition newline : string := String (Ascii.ascii_of_nat 10) EmptyString.


End CoreSpec.

Module RadiusSpec.
Import Radiusserver.

(** A packet passes the checks of readLoop: its client is known, it
    decodes, and it is an Access-Request or its authenticator is valid. *)
Definition passesChecks (core : CoreFunctions) (rs : RadiusServer) (d : UDPDatagram)
    (client : RadiusClient) (packet : RadiusPacket) : Prop :=
  FindRadiusClient rs (IP (clientAddr d)) = inr client
  /\ NewRadiusPacketFromBytes core (take 4096 (payload d)) (Secret client)
       Zero_authenticator = inr packet
  /\ (Code packet = ACCESS_REQUEST
      \/ ValidateRequestAuthenticator core (take 4096 (payload d)) (Secret client) = true).

(** The same functions with another authenticator check. *)
Definition withValidator (validate : bytes -> string -> bool) (core : CoreFunctions)
    : CoreFunctions :=
  mkCore (NewRadiusPacketFromBytes core) validate (ToBytes core) (WriteTo core).

(** ** A concrete server *)

(** Decoding reads the code and the identifier from the first two bytes;
    the authenticator check accepts nothing; encoding writes the two bytes
    back. *)
Definition exampleCore : CoreFunctions :=
  mkCore
    (fun buf secret auth =>
       match buf with
       | code :: id :: rest =>
         inr (mkPacket (Z.of_N (Byte.to_N code)) (Z.of_N (Byte.to_N id)) rest)
       | _ => inl "packet too short"
       end)
    (fun buf secret => false)
    (fun packet secret id =>
       match Byte.of_N (Z.to_N (Code packet)), Byte.of_N (Z.to_N id) with
       | Some c, Some i => inr (c :: i :: Attributes packet)
       | _, _ => inl "out of range"
       end)
    (fun buf addr => None).

(** One client, 10.0.0.9; the handler answers every packet with an
    Access-Accept. *)
Definition exampleServer : RadiusServer :=
  mkServer
    (fun ip => if String.eqb ip "10.0.0.9" then inr (mkClient "secret")
               else inl "client not found")
    (fun packet => (mkPacket 2 (Identifier packet) [], None))
    StatusOperational false.

Definition fromClient (code : Byte.byte) : UDPDatagram :=
  mkDatagram [code; Byte.x07] (mkAddr "10.0.0.9" 50000).
Definition fromStranger : UDPDatagram :=
  mkDatagram [Byte.x01; Byte.x07] (mkAddr "10.0.0.66" 50000).

End RadiusSpec.

(* ===================================================================== *)
(** * diampeer: constructors, connect and the reader goroutine *)
(* ===================================================================== *)

Module DiampeerRuntime.
Import Diamcodec DiamcodecNew Diampeer.

(** NewActiveDiameterPeer: the peer as the constructor leaves it, and the
    timeout (milliseconds) it hands to the connect goroutine. *)
Definition NewActiveDiameterPeer (c : Config.ConfigurationManager)
    (peer : Config.DiameterPeer) (h : MessageHandler) : DiameterPeer * Z :=
  let dp := mkPeer c peer StatusConnecting None false false ∅ h 0 0 in
  let timeout := Config.ConnectionTimeoutMillis peer in
  let timeout := if (timeout =? 0)%Z then 5000%Z else timeout in
  (dp, timeout).

(** NewPassiveDiameterPeer: the connection is there and its reader has been
    started. *)
Definition NewPassiveDiameterPeer (c : Config.ConfigurationManager)
    (conn : Conn) (h : MessageHandler) : DiameterPeer :=
  mkPeer c Config.emptyPeer StatusConnected (Some conn) true false ∅ h 0 0.

(** What the dialer gives connect. *)
Inductive DialResult : Type :=
| Dialed (conn : Conn)
| DialFailed (err : GoError).

(** connect: stores the canceller in the peer and sends the loop the
    outcome of the dial. *)
Definition connect (dial : DialResult) (dp : DiameterPeer) : DiameterPeer * Event :=
  let dp := mkPeer (ci dp) (PeerConfig dp) (status dp) (connection dp)
              (readLoopChannel dp) true (requestsMap dp) (handler dp)
              (watchdogTicker dp) (outstandingDWA dp) in
  match dial with
  | DialFailed err => (dp, ConnectionErrorMsg err)
  | Dialed conn => (dp, ConnectionEstablishedMsg conn)
  end.

(** What dm.ReadFrom(dp.connection) gives the reader. *)
Inductive ReadResult : Type :=
| ReadMessage (dm : DiameterMessage)
| ReadEOF
| ReadFailure (err : GoError).

(** readLoop: the messages the reader sends to the event loop, and whether
    it has left its loop and closed its channel. *)
Fixpoint readLoop (reads : list ReadResult) : list Event * bool :=
  match reads with
  | [] => ([], false)
  | ReadMessage dm :: rest =>
    let (sent, closed) := readLoop rest in (IngressDiameterMessage dm :: sent, closed)
  | ReadEOF :: _ => ([ReadEOFMsg], true)
  | ReadFailure err :: _ => ([ReadErrorMsg err], true)
  end.

(** Disengage: the message it puts on the event loop channel. *)
Definition Disengage : Event := PeerCloseCommand.

(** ** Counting what a trace holds *)

Definition isPeerDown (e : Effect) : bool :=
  match e with ControlSend (PeerDownEvent _) => true | _ => false end.

Definition countPeerDown (tr : list Effect) : nat :=
  length (List.filter isPeerDown tr).

Definition isConnWrite (e : Effect) : bool :=
  match e with ConnWrite _ => true | _ => false end.

(** The messages written to the socket, in order. *)
Definition written (tr : list Effect) : list DiameterMessage :=
  omap (fun e => match e with ConnWrite m => Some m | _ => None end) tr.

(** The status lets messages out: Connected or Engaged. *)
Definition sendable (dp : DiameterPeer) : bool :=
  ((status dp =? StatusConnected) || (status dp =? StatusEngaged))%Z.

End DiampeerRuntime.

Module PeerRunSpec.
Import Diamcodec DiamcodecNew Diampeer DiampeerRuntime PeerSpec.

(** A Disconnect-Peer request and a Device-Watchdog answer. *)
Definition dprExample : DiameterMessage :=
  mkMessage true 0 "Base" 282 "Disconnect-Peer" 21 22 [].
Definition dwaExample : DiameterMessage :=
  mkMessage false 0 "Base" 280 "Device-Watchdog" 31 32 [mkAVP "Result-Code" (VInt 2001)].

(** A socket that refuses the write. *)
Definition brokenPipe : Env := mkEnv (Some "broken pipe") 0 0.

(** An engaged peer with nothing pending and no watchdog outstanding. *)
Definition idlePeer : DiameterPeer :=
  set_outstandingDWA 0 (set_requestsMap ∅ busyPeer).

(** What the reader sends last before it closes its channel. *)
Definition isTerminal (ev : Event) : Prop :=
  ev = ReadEOFMsg \/ exists err, ev = ReadErrorMsg err.

End PeerRunSpec.

(* ===================================================================== *)
(** * core: what a load keeps of the dictionary *)
(* ===================================================================== *)

Module CoreInvariants.
Import Core.

(** Everything of an attribute but its enumerated values. *)
Definition attrKey (a : jRadiusAVP) : Z * string * string * (bool * bool * bool * bool) :=
  (Code a, Name a, Type_ a, (Tagged a, Encrypted a, Salted a, Withlen a)).

(** A vendor block grows: same vendor, the attributes it had where they
    were, possibly more behind them. *)
Definition blockExtends (va va' : jRadiusVendorAVPs) : Prop :=
  AVPsVendorId va = AVPsVendorId va'
  /\ map attrKey (Attributes va) `prefix_of` map attrKey (Attributes va').

(** A dictionary grows: the vendors it had where they were, the blocks it
    had where they were, each grown. *)
Definition extends (d d' : jRadiusDict) : Prop :=
  Vendors d `prefix_of` Vendors d'
  /\ (length (Avps d) <= length (Avps d'))%nat
  /\ forall i va, Avps d !! i = Some va ->
       exists va', Avps d' !! i = Some va' /\ blockExtends va va'.

(** Every vendor of the dictionary has a block of attributes. *)
Definition vendorsHaveBlocks (d : jRadiusDict) : Prop :=
  forall v, In v (Vendors d) ->
    exists i va, Avps d !! i = Some va /\ AVPsVendorId va = VendorId v.

(** No attribute of the dictionary has the type VSA. *)
Definition noVSA (d : jRadiusDict) : Prop :=
  forall va a, In va (Avps d) -> In a (Attributes va) -> Type_ a <> "VSA".

(** The changes one line can make to the state of the scanner loop, when it
    does not fail. *)
Inductive lineStep (include : string -> jRadiusDict -> Outcome jRadiusDict)
    : ParserState -> ParserState -> Prop :=
| stepNothing d i : lineStep include (d, i) (d, i)
| stepInclude d d' i w :
    include w d = Ok d' -> lineStep include (d, i) (d', i)
| stepVendor d i id name :
    lineStep include (d, i)
      (mkDict (Vendors d ++ [mkVendor id name]) (Avps d ++ [mkVendorAVPs id []]), i)
| stepBeginVendor d i i' v va :
    In v (Vendors d) -> Avps d !! i' = Some va -> AVPsVendorId va = VendorId v ->
    lineStep include (d, i) (d, i')
| stepEndVendor d i : lineStep include (d, i) (d, 0%nat)
| stepAttribute d i va avp :
    Avps d !! i = Some va -> Type_ avp <> "VSA" ->
    lineStep include (d, i)
      (mkDict (Vendors d)
         (<[i := mkVendorAVPs (AVPsVendorId va) (Attributes va ++ [avp])]> (Avps d)), i)
| stepValue d i va attr item val :
    Avps d !! i = Some va ->
    lineStep include (d, i)
      (mkDict (Vendors d)
         (<[i := mkVendorAVPs (AVPsVendorId va)
                   (addEnumValue (Attributes va) attr item val)]> (Avps d)), i).


End CoreInvariants.

Module CoreRunSpec.
Import Core CoreSpec.

(** A vendor dictionary, and a main dictionary that includes it. *)
Definition acmeDictionary : string :=
  "VENDOR Acme 9999" ++ newline
  ++ "BEGIN-VENDOR Acme" ++ newline
  ++ "ATTRIBUTE Acme-Level 1 integer" ++ newline
  ++ "VALUE Acme-Level High 3" ++ newline
  ++ "END-VENDOR".

Definition mainDictionary : string :=
  "# standard attributes" ++ newline
  ++ "ATTRIBUTE Framed-IP-Address 8 ipaddr" ++ newline
  ++ "$INCLUDE dictionary.acme".

Definition twoObjects (name : string) : GoError + string :=
  if String.eqb name "dictionary" then inr mainDictionary
  else if String.eqb name "dictionary.acme" then inr acmeDictionary
  else inl "object not found".



(** A dictionary with two standard attributes and a vendor without any. *)
Definition userName : jRadiusAVP :=
  mkRadiusAVP 1 "User-Name" "String" false false false false None.
Definition serviceType : jRadiusAVP :=
  mkRadiusAVP 6 "Service-Type" "Integer" false false false false None.
Definition standardDict : jRadiusDict :=
  mkDict [mkVendor 311 "Microsoft"]
         [mkVendorAVPs 0 [userName; serviceType]; mkVendorAVPs 311 []].

End CoreRunSpec.

(* ===================================================================== *)
(** * radiusserver: the account of a run *)
(* ===================================================================== *)

Module RadiusAccounting.
Import Radiusserver.

Definition isRequest (e : ServerEffect) : bool :=
  match e with RecordRadiusServerRequest _ _ => true | _ => false end.

Definition isWrite (e : ServerEffect) : bool :=
  match e with SocketWriteTo _ _ => true | _ => false end.

(** The metric that closes the account of a request: a response or a drop. *)
Definition isOutcome (e : ServerEffect) : bool :=
  match e with
  | RecordRadiusServerDrop _ _ | RecordRadiusServerResponse _ _ => true
  | _ => false
  end.

Definition isResponse (e : ServerEffect) : bool :=
  match e with RecordRadiusServerResponse _ _ => true | _ => false end.

Definition count (p : ServerEffect -> bool) (tr : list ServerEffect) : nat :=
  length (List.filter p tr).

(** The goroutines started in a trace, in the order of their start. *)
Definition goroutines (tr : list ServerEffect) : list (list ServerEffect) :=
  omap (fun e => match e with Go child => Some child | _ => None end) tr.

(** The addresses a trace writes to. *)
Definition writeAddrs (tr : list ServerEffect) : list UDPAddr :=
  omap (fun e => match e with SocketWriteTo _ addr => Some addr | _ => None end) tr.

(** The datagrams among the inputs of the socket. *)
Definition datagrams (inputs : list SocketInput) : list UDPDatagram :=
  omap (fun i => match i with Datagram d => Some d | _ => None end) inputs.

(** The inputs that the loop reads: up to and including the first that is
    not a datagram. *)
Fixpoint readInputs (inputs : list SocketInput) : list SocketInput :=
  match inputs with
  | [] => []
  | Datagram d :: rest => Datagram d :: readInputs rest
  | i :: _ => [i]
  end.

(** A goroutine ends with one response or drop, after at most one write,
    which is to the address it was given; it records a response only after
    the write. *)
Definition settled (addr : UDPAddr) (child : list ServerEffect) : Prop :=
  count isOutcome child = 1%nat
  /\ (count isWrite child <= 1)%nat
  /\ (count isResponse child <= count isWrite child)%nat
  /\ goroutines child = []
  /\ count isRequest child = 0%nat
  /\ forall a, In a (writeAddrs child) -> a = addr.

End RadiusAccounting.

(* ===================================================================== *)
(** * config: the configuration objects and their cache *)
(* ===================================================================== *)

Module ConfigObjects.

(** What json.Unmarshal stores in an [interface{}]; Go's nil is [None] of
    [option JsonValue]. *)
#[local] Unset Elimination Schemes.
Inductive JsonValue : Type :=
| JBool (b : bool)
| JNumber (literal : string)
| JString (s : string)
| JArray (items : list JsonValue)
| JObject (members : list (string * JsonValue)).
#[local] Set Elimination Schemes.

Record ConfigObject : Type := mkConfigObject {
  Json : option JsonValue;
  RawText : string
}.

(** [ConfigObject{}]. *)
Definition zeroConfigObject : ConfigObject := mkConfigObject None EmptyString.

(** A search rule; [Regex] is the compiled expression, as its
    FindStringSubmatch method ([None] for a nil slice). *)
Record searchRule : Type := mkRule {
  NameRegex : string;
  Base : string;
  Regex : string -> option (list string)
}.

(** The singleton [Config].  [InFlight] maps an object name to the
    sync.Once stored for it, as the flag that says whether it has run.
    The model is of calls made one at a time. *)
Record ConfigManager : Type := mkConfigManager {
  InstanceName : string;
  ObjectCache : gmap string ConfigObject;
  sRules : list searchRule;
  InFlight : gmap string bool
}.

(** What the functions read from outside the program: http.Get with
    ioutil.ReadAll, ioutil.ReadFile, os.Getenv("IGOR_CONFIG_BASE"); and
    json.Unmarshal into an [interface{}], [None] when it fails (its error
    is not looked at) or decodes null. *)
Record Env : Type := mkEnv {
  httpGet : string -> GoError + string;
  readFile : string -> GoError + string;
  IGOR_CONFIG_BASE : string;
  Unmarshal : string -> option JsonValue
}.

Inductive Result (A : Type) : Type :=
| Returned (a : A)
| Panicked (msg : string).
Arguments Returned {A} a.
Arguments Panicked {A} msg.

(** ReadResource. *)
Definition ReadResource (env : Env) (location : string) : GoError + string :=
  if Core.HasPrefix location "http" then httpGet env location
  else readFile env (IGOR_CONFIG_BASE env ++ location).

(** newConfigObjectFromString. *)
Definition newConfigObjectFromString (env : Env) (object : string) : ConfigObject :=
  mkConfigObject (Unmarshal env object) object.

(** The loop of ReadConfigObject over the search rules, from the values
    [base] and [innerName] have so far. *)
Fixpoint searchLoop (rules : list searchRule) (objectName base innerName : string)
    : Result (string * string) :=
  match rules with
  | [] => Returned (base, innerName)
  | rule :: rest =>
    match Regex rule objectName with
    | None => searchLoop rest objectName base innerName
    | Some matches =>
      match matches !! 1%nat with
      | None => Panicked "index out of range"
      | Some inner => searchLoop rest objectName (Base rule) inner
      end
    end
  end.

(** ReadConfigObject after the loop, when [base] is not empty. *)
Definition readFrom (env : Env) (instanceName base innerName : string)
    : ConfigObject * option GoError :=
  let general :=
    match ReadResource env (base ++ innerName) with
    | inr object => (newConfigObjectFromString env object, None)
    | inl err => (zeroConfigObject, Some err)
    end in
  if negb (String.eqb instanceName EmptyString) then
    match ReadResource env (base ++ instanceName ++ "/" ++ innerName) with
    | inr object => (newConfigObjectFromString env object, None)
    | inl _ => general
    end
  else general.

Definition ReadConfigObject (env : Env) (Config : ConfigManager) (objectName : string)
    : Result (ConfigObject * option GoError) :=
  match searchLoop (sRules Config) objectName EmptyString EmptyString with
  | Panicked msg => Panicked msg
  | Returned (base, innerName) =>
    if String.eqb base EmptyString then
      Returned (zeroConfigObject, Some "object name does not match any rules")
    else Returned (readFrom env (InstanceName Config) base innerName)
  end.

Definition set_ObjectCache (cache : gmap string ConfigObject) (c : ConfigManager)
    : ConfigManager :=
  mkConfigManager (InstanceName c) cache (sRules c) (InFlight c).

Definition set_InFlight (inFlight : gmap string bool) (c : ConfigManager)
    : ConfigManager :=
  mkConfigManager (InstanceName c) (ObjectCache c) (sRules c) inFlight.

(** A call that changes the manager: it returns, or panics, and leaves
    the manager. *)
Inductive Run (A : Type) : Type :=
| Returns (c : ConfigManager) (a : A)
| Panics (c : ConfigManager) (msg : string).
Arguments Returns {A} c a.
Arguments Panics {A} c msg.

(** The second look at the cache, at the end of GetConfigObject. *)
Definition tryAgain (c : ConfigManager) (objectName : string)
    : ConfigObject * option GoError :=
  match ObjectCache c !! objectName with
  | Some obj => (obj, None)
  | None => (zeroConfigObject, Some ("could not get configuration object " ++ objectName))
  end.

(** GetConfigObject.  A sync.Once whose function panics counts as run,
    and the panic leaves its entry in [InFlight]. *)
Definition GetConfigObject (env : Env) (c : ConfigManager) (objectName : string)
    : Run (ConfigObject * option GoError) :=
  match ObjectCache c !! objectName with
  | Some obj => Returns c (obj, None)
  | None =>
    match InFlight c !! objectName with
    | Some true => Returns c (tryAgain c objectName)
    | stored =>
      (* LoadOrStore, then Do(retriever) *)
      let c1 := match stored with
                | None => set_InFlight (<[objectName := false]> (InFlight c)) c
                | Some _ => c
                end in
      match ReadConfigObject env c1 objectName with
      | Panicked msg => Panics (set_InFlight (<[objectName := true]> (InFlight c1)) c1) msg
      | Returned (obj, None) =>
        let c2 := set_ObjectCache (<[objectName := obj]> (ObjectCache c1)) c1 in
        let c3 := set_InFlight (delete objectName (InFlight c2)) c2 in
        Returns c3 (tryAgain c3 objectName)
      | Returned (_, Some _) =>
        let c3 := set_InFlight (delete objectName (InFlight c1)) c1 in
        Returns c3 (tryAgain c3 objectName)
      end
    end
  end.

(** GetConfigObjectAsJSon and GetConfigObjectAsText. *)
Definition GetConfigObjectAsJSon (env : Env) (c : ConfigManager) (objectName : string)
    : Run (option JsonValue * option GoError) :=
  match GetConfigObject env c objectName with
  | Returns c' (co, None) => Returns c' (Json co, None)
  | Returns c' (_, Some err) => Returns c' (None, Some err)
  | Panics c' msg => Panics c' msg
  end.

Definition GetConfigObjectAsText (env : Env) (c : ConfigManager) (objectName : string)
    : Run (string * option GoError) :=
  match GetConfigObject env c objectName with
  | Returns c' (co, None) => Returns c' (RawText co, None)
  | Returns c' (_, Some err) => Returns c' (EmptyString, Some err)
  | Panics c' msg => Panics c' msg
  end.

(** InvalidateConfigObject. *)
Definition InvalidateConfigObject (c : ConfigManager) (objectName : string)
    : ConfigManager :=
  set_ObjectCache (delete objectName (ObjectCache c)) c.

(** ** Conditions and a concrete configuration *)

(** The rule matches the name and its expression has a group. *)
Definition matchesWith (rule : searchRule) (objectName inner : string) : Prop :=
  exists whole more, Regex rule objectName = Some (whole :: inner :: more).

(** The rule does not match, or its expression has a group. *)
Definition harmless (objectName : string) (rule : searchRule) : Prop :=
  match Regex rule objectName with
  | Some matches => (2 <= length matches)%nat
  | None => True
  end.

(** The expression "^template_(.+)$". *)
Definition templateRegex (objectName : string) : option (list string) :=
  if Core.HasPrefix objectName "template_" && (9 <? String.length objectName)%nat
  then Some [objectName; String.substring 9 (String.length objectName - 9) objectName]
  else None.

(** The expression "^(.+)$". *)
Definition anyRegex (objectName : string) : option (list string) :=
  if (0 <? String.length objectName)%nat then Some [objectName; objectName] else None.

(** The expression "^Gy.+$", which has no group. *)
Definition groupless (objectName : string) : option (list string) :=
  if Core.HasPrefix objectName "Gy" && (2 <? String.length objectName)%nat
  then Some [objectName] else None.

Definition exampleRules : list searchRule :=
  [mkRule "^(.+)$" "resources/" anyRegex;
   mkRule "^template_(.+)$" "http://cfg/" templateRegex].

(** The same rules behind one whose expression has no group. *)
Definition rulesWithGroupless : list searchRule :=
  mkRule "^Gy.+$" "resources/gy/" groupless :: exampleRules.

(** Files under /etc/igor/: the general and the instance copy of
    "diameterServer.json". *)
Definition exampleEnv : Env :=
  mkEnv
    (fun url => if String.eqb url "http://cfg/basic" then inr "{}"
                else inl "connection refused")
    (fun path =>
       if String.eqb path "/etc/igor/resources/diameterServer.json" then inr "general"
       else if String.eqb path "/etc/igor/resources/unit1/diameterServer.json"
            then inr "of unit1"
       else inl "no such file or directory")
    "/etc/igor/"
    (fun text => if String.eqb text "{}" then Some (JObject []) else None).

Definition exampleConfig : ConfigManager :=
  mkConfigManager "unit1" ∅ exampleRules ∅.

(** The files have gone. *)
Definition emptyEnv : Env :=
  mkEnv (fun _ => inl "connection refused") (fun _ => inl "no such file or directory")
        EmptyString (fun _ => None).

End ConfigObjects.

(* ===================================================================== *)
(** * The Diameter peer actor: properties *)
(* ===================================================================== *)

Module PeerProperties.
Import Diamcodec DiamcodecNew Diampeer PeerSpec.
Local Open Scope list_scope.

Ltac act_unfold :=
  unfold eventLoopCase, handleCER, writeTo, sendReply, when, skip, emit, get,
    modify, panic, mbind, mret, Act_bind, Act_ret, act_bind, act_ret.

(** Decides the tests on literals and lets the state flow through. *)
Ltac act_step :=
  repeat (progress (cbn [Z.eqb Pos.eqb String.eqb Ascii.eqb Bool.eqb negb andb orb];
                    cbv beta iota zeta)).

(** Closes a goal that has a hypothesis placing an effect in a trace in
    which it does not occur. *)
Ltac absurd_in :=
  repeat match goal with
         | H : False |- _ => destruct H
         | H : _ \/ _ |- _ => destruct H
         | H : @eq Effect _ _ |- _ => discriminate H
         | H : In _ (_ ++ _) |- _ => apply in_app_or in H
         | H : In _ (if ?b then _ else _) |- _ => destruct b
         | H : In _ (_ :: _) |- _ => cbn [In] in H
         | H : In _ [] |- _ => destruct H
         end.

(** ** Steps used by several properties *)

(** PeerCloseCommand, whatever the state: the status becomes Closed, the
    connect context is cancelled if there is one, the socket is closed if
    there is one, one PeerDown goes to the control channel and the loop
    returns.  The requests map is not touched. *)
Lemma step_PeerCloseCommand env dp :
  eventLoopCase env PeerCloseCommand dp =
    Done Exit (set_status StatusClosed dp)
      ((if cancel dp then [CancelConnect] else [])
       ++ (if bool_decide (is_Some (connection dp)) then [ConnClose] else [])
       ++ [ControlSend (PeerDownEvent None)]).
Proof.
  act_unfold. simpl.
  destruct (cancel dp); destruct (bool_decide (is_Some (connection dp))); reflexivity.
Qed.


(** CancelDiameterRequest: the entry, if there is one, is removed and its
    channel closed; nothing else changes. *)
Lemma step_CancelDiameterRequest env dp hbh :
  eventLoopCase env (CancelDiameterRequest hbh) dp =
    match requestsMap dp !! hbh with
    | Some respChann =>
      Done Next (set_requestsMap (delete hbh (requestsMap dp)) dp) [ChanClose respChann]
    | None => Done Next dp []
    end.
Proof.
  act_unfold. destruct (requestsMap dp !! hbh); reflexivity.
Qed.

Lemma eventLoopFrom_nil fuel envs dp tr :
  eventLoopFrom fuel envs [] dp tr = mkLoopResult dp tr Waiting.
Proof. destruct fuel; reflexivity. Qed.

Lemma set_status_same dp : set_status (status dp) dp = dp.
Proof. destruct dp; reflexivity. Qed.

(** ** C1 *)

(** C1 (as the code behaves): a PeerCloseCommand processed by an engaged
    peer that has a request pending (hop-by-hop id 7, channel 1) cancels
    the connect context, closes the socket and reports one PeerDown, but
    the pending entry is still in the requests map when the loop has
    returned and nothing was sent on, or done to, its channel: the drain
    that the TODO of the code announces is missing. *)
Theorem close_command_leaves_pending_requests :
  let r := eventLoopResume 1 [] [PeerCloseCommand] busyPeer in
  loopEnd r = Returned
  /\ status (finalPeer r) = StatusClosed
  /\ loopTrace r = [CancelConnect; ConnClose; ControlSend (PeerDownEvent None);
                    TickerStop; ConnClose; WaitReadLoop]
  /\ requestsMap (finalPeer r) !! 7%N = Some 1%positive
  /\ (forall reply, ~ In (ChanSend 1%positive reply) (loopTrace r))
  /\ ~ In (ChanClose 1%positive) (loopTrace r).
Proof.
  vm_compute. repeat split; try reflexivity.
  - intros reply H. repeat (destruct H as [H | H]; [discriminate H |]). exact H.
  - intros H. repeat (destruct H as [H | H]; [discriminate H |]). exact H.
Qed.

(** ** C2 *)

(** WatchdogMsg, whatever the state, when a DWR can be built: the close
    command is queued if more than two DWR are unanswered, and in every
    case the DWR is queued and the counter incremented. *)
Lemma step_WatchdogMsg env dp dwr :
  NewInstanceDiameterRequest (ci dp) "Base" "Device-Watchdog"
    (freshHopByHopId env) (freshEndToEndId env) = Some dwr ->
  eventLoopCase env WatchdogMsg dp =
    Done Next (set_outstandingDWA (wrap_int (outstandingDWA dp + 1)) dp)
      ((if (outstandingDWA dp >? 2)%Z then [EvLoopSend PeerCloseCommand] else [])
       ++ [EvLoopSend (EgressDiameterMessage dwr None)]).
Proof.
  intros Hdwr. act_unfold. rewrite Hdwr.
  destruct (outstandingDWA dp >? 2)%Z; reflexivity.
Qed.

(** C2 (as the code behaves): on the tick that finds three DWR unanswered
    the peer queues the close command and then, on the same tick, still
    builds a DWR, queues it for sending and increments the counter from 3
    to 4.  The loop returns at the close command, which is ahead in the
    channel, so that this DWR never reaches the socket. *)
Theorem watchdog_close_tick_still_queues_dwr :
  exists dwr,
    NewInstanceDiameterRequest exampleCI "Base" "Device-Watchdog" 0 0 = Some dwr
    /\ outstandingDWA busyPeer = 3%Z
    /\ eventLoopCase quietEnv WatchdogMsg busyPeer =
         Done Next (set_outstandingDWA 4 busyPeer)
           [EvLoopSend PeerCloseCommand; EvLoopSend (EgressDiameterMessage dwr None)]
    /\ loopEnd (eventLoopResume 2 [] [WatchdogMsg] busyPeer) = Returned
    /\ writesNothing (loopTrace (eventLoopResume 2 [] [WatchdogMsg] busyPeer)).
Proof.
  eexists. split; [reflexivity |]. split; [reflexivity |].
  split; [reflexivity |]. split; [reflexivity |].
  intros m H. vm_compute in H.
  repeat (destruct H as [H | H]; [discriminate H |]). exact H.
Qed.

(** Without any answer from the other side the counter goes 0, 1, 2, 3 on
    the first three ticks, each of which has its DWR written; the close
    command is queued on the fourth tick. *)
Lemma watchdog_escalation_takes_four_ticks :
  let idle := set_outstandingDWA 0 busyPeer in
  let after3 := eventLoopResume 6 [] [WatchdogMsg; WatchdogMsg; WatchdogMsg] idle in
  loopEnd after3 = Waiting
  /\ outstandingDWA (finalPeer after3) = 3%Z
  /\ ~ In (EvLoopSend PeerCloseCommand) (loopTrace after3)
  /\ loopEnd (eventLoopResume 2 [] [WatchdogMsg] (finalPeer after3)) = Returned.
Proof.
  split; [reflexivity |]. split; [reflexivity |]. split; [| reflexivity].
  intros H. vm_compute in H. absurd_in.
Qed.

(** ** C3 *)






(** ** C4 *)

Lemma find_app_found {A : Type} (f : A -> bool) (l1 l2 : list A) (x : A) :
  List.find f l1 = Some x -> List.find f (l1 ++ l2) = Some x.
Proof.
  induction l1 as [| a l1 IH]; simpl; [discriminate |].
  destruct (f a); [trivial | exact IH].
Qed.

(** pushCEAttributes only appends AVPs and leaves the header alone. *)
Lemma pushCEAttributes_appends c m :
  IsRequest (pushCEAttributes c m) = IsRequest m
  /\ exists extra, AVPs (pushCEAttributes c m) = AVPs m ++ extra.
Proof.
  unfold pushCEAttributes.
  set (start := Add (Add (Add (Add _ _ _) _ _) _ _) _ _).
  assert (Hstart : IsRequest start = IsRequest m /\ exists extra, AVPs start = AVPs m ++ extra).
  { subst start.
    destruct (negb (String.eqb (Config.BindAddress (Config.DiameterServerConf c)) "0.0.0.0"));
      simpl; (split; [reflexivity |]); rewrite <- ?app_assoc; eexists; reflexivity. }
  match goal with
  | |- context [fold_left ?f _ _] => set (F := f)
  end.
  assert (Hfold : forall rules acc,
            (IsRequest (fst acc) = IsRequest m
             /\ exists extra, AVPs (fst acc) = AVPs m ++ extra) ->
            IsRequest (fst (fold_left F rules acc)) = IsRequest m
            /\ exists extra, AVPs (fst (fold_left F rules acc)) = AVPs m ++ extra).
  { induction rules as [| rule rules IH]; intros [cer relaySet] Hacc; [exact Hacc |].
    cbn [fold_left]. apply IH.
    destruct Hacc as (Hreq & extra & Hextra). cbn [fst] in Hreq, Hextra.
    unfold F.
    destruct (negb (String.eqb (Config.RuleApplicationId rule) "*")).
    - destruct (Config.AppByName c !! Config.RuleApplicationId rule) as [appDict |];
        [| cbn [fst]; eauto].
      destruct (strContains (Config.AppType appDict) "auth").
      { cbn [fst Add IsRequest AVPs]. split; [exact Hreq |].
        rewrite Hextra, <- app_assoc. eauto. }
      destruct (strContains (Config.AppType appDict) "acct").
      { cbn [fst Add IsRequest AVPs]. split; [exact Hreq |].
        rewrite Hextra, <- app_assoc. eauto. }
      cbn [fst]. eauto.
    - destruct (negb relaySet); [| cbn [fst]; eauto].
      cbn [fst Add IsRequest AVPs]. split; [exact Hreq |].
      rewrite Hextra, <- !app_assoc. eauto. }
  apply Hfold. exact Hstart.
Qed.

Lemma ceaUnknownPeer_ResultCode dp cer :
  IsRequest (ceaUnknownPeer dp cer) = false
  /\ GetResultCode (ceaUnknownPeer dp cer) = DIAMETER_UNKNOWN_PEER.
Proof. split; reflexivity. Qed.

Lemma ceaSuccess_ResultCode dp cer :
  IsRequest (ceaSuccess dp cer) = false
  /\ GetResultCode (ceaSuccess dp cer) = DIAMETER_SUCCESS.
Proof.
  unfold ceaSuccess.
  destruct (pushCEAttributes_appends (ci dp)
              (Add (NewInstanceDiameterAnswer (ci dp) cer) "Result-Code"
                 (VInt DIAMETER_SUCCESS))) as (Hreq & extra & Hextra).
  split; [rewrite Hreq; reflexivity |].
  unfold GetResultCode, GetAVP. rewrite Hextra.
  rewrite (find_app_found _ _ extra (mkAVP "Result-Code" (VInt DIAMETER_SUCCESS)));
    reflexivity.
Qed.

(** C4, the claim as stated fails: a CER without Origin-Host AVP fails
    validation, and the peer (status Connected) queues no CEA at all; it
    only sends itself the close command, and nothing is written to the
    socket before the loop returns. *)
Lemma cer_without_origin_host_gets_no_cea :
  isBase true "Capabilities-Exchange" (cerFrom None)
  /\ cerFailsValidation passivePeer (cerFrom None)
  /\ ~ emitsUnknownPeerCEA
        (traceOf (eventLoopCase quietEnv (IngressDiameterMessage (cerFrom None)) passivePeer))
  /\ loopEnd (eventLoop 2 [] [IngressDiameterMessage (cerFrom None)] passivePeer) = Returned
  /\ writesNothing
       (loopTrace (eventLoop 2 [] [IngressDiameterMessage (cerFrom None)] passivePeer)).
Proof.
  split; [repeat split |]. split; [right; left; reflexivity |].
  split; [| split; [reflexivity |]].
  - intros (cea & Hin & _). vm_compute in Hin. absurd_in.
  - intros m Hin. vm_compute in Hin. absurd_in.
Qed.

(** C4 (amended): a CER arrives.
    - If the status is not Connected, or the CER has no Origin-Host AVP,
      the peer queues no CEA and sends itself the close command.
    - If (status Connected) the origin address does not pass the ACL check
      or the Origin-Host is not in the peer configuration, the peer queues
      a CEA with Result-Code DIAMETER_UNKNOWN_PEER and then sends itself
      the close command.
    - If the CER is valid, the peer takes the configuration of that
      Origin-Host, queues a CEA with Result-Code DIAMETER_SUCCESS, becomes
      Engaged and sends itself PeerUpMsg with the remote Origin-Host, which
      it then reports in a PeerUp on the control channel. *)
Theorem cer_validation_outcomes (env : Env) (dp : DiameterPeer) (m : DiameterMessage) :
  isBase true "Capabilities-Exchange" m ->
  let received :=
    Instrument DiameterRequestReceived (Config.DiameterHost (PeerConfig dp)) m in
  (cerNotConnected dp \/ cerNoOriginHost m ->
     eventLoopCase env (IngressDiameterMessage m) dp =
       Done Next dp [received; EvLoopSend PeerCloseCommand])
  /\ (status dp = StatusConnected -> cerRejectedByACL dp m \/ cerUnknownHost dp m ->
      eventLoopCase env (IngressDiameterMessage m) dp =
        Done Next dp
          [received; EvLoopSend (EgressDiameterMessage (ceaUnknownPeer dp m) None);
           EvLoopSend PeerCloseCommand]
      /\ emitsUnknownPeerCEA
           (traceOf (eventLoopCase env (IngressDiameterMessage m) dp)))
  /\ (forall avp conn peerConfig,
      status dp = StatusConnected ->
      GetAVP m "Origin-Host" = Some avp ->
      connection dp = Some conn ->
      Config.ValidateIncomingAddress (Config.PeersConf (ci dp))
        (GetString avp) (RemoteIP conn) = true ->
      Config.FindPeer (Config.PeersConf (ci dp)) (GetString avp) = Some peerConfig ->
      let engaged := set_status StatusEngaged (set_PeerConfig peerConfig dp) in
      eventLoopCase env (IngressDiameterMessage m) dp =
        Done Next engaged
          [received; EvLoopSend (EgressDiameterMessage (ceaSuccess dp m) None);
           EvLoopSend (PeerUpMsg (GetString avp))]
      /\ IsRequest (ceaSuccess dp m) = false
      /\ GetResultCode (ceaSuccess dp m) = DIAMETER_SUCCESS
      /\ status engaged = StatusEngaged
      /\ traceOf (eventLoopCase env (PeerUpMsg (GetString avp)) engaged) =
           [ControlSend (PeerUpEvent (GetString avp)); TickerStop]).
Proof.
  intros (Hreq & Happ & Hcmd) received. split; [| split].
  - intros Hbad. act_unfold. rewrite Hreq, Happ, Hcmd. act_step.
    destruct (status dp =? StatusConnected)%Z eqn:Hst; act_step.
    + destruct Hbad as [Hnc | Hno].
      * apply Z.eqb_eq in Hst. contradiction.
      * unfold cerNoOriginHost in Hno. rewrite Hno. reflexivity.
    + reflexivity.
  - intros Hst Hbad.
    assert (Hstep : eventLoopCase env (IngressDiameterMessage m) dp =
              Done Next dp
                [received; EvLoopSend (EgressDiameterMessage (ceaUnknownPeer dp m) None);
                 EvLoopSend PeerCloseCommand]).
    { act_unfold. rewrite Hreq, Happ, Hcmd. act_step. rewrite Hst. act_step.
      destruct Hbad as [(avp & conn & Havp & Hconn & Hacl)
                       | (avp & conn & Havp & Hconn & Hacl & Hfind)];
        rewrite Havp, Hconn, Hacl; [| rewrite Hfind]; reflexivity. }
    split; [exact Hstep |]. rewrite Hstep.
    exists (ceaUnknownPeer dp m). split; [simpl; auto |].
    apply ceaUnknownPeer_ResultCode.
  - intros avp conn peerConfig Hst Havp Hconn Hacl Hfind engaged.
    split; [| split; [| split; [| split]]].
    + act_unfold. rewrite Hreq, Happ, Hcmd. act_step. rewrite Hst. act_step.
      rewrite Havp, Hconn, Hacl, Hfind. reflexivity.
    + apply ceaSuccess_ResultCode.
    + apply ceaSuccess_ResultCode.
    + reflexivity.
    + reflexivity.
Qed.

Lemma cer_validation_outcomes_witness :
  (* no Origin-Host: no CEA *)
  eventLoopCase quietEnv (IngressDiameterMessage (cerFrom None)) passivePeer =
    Done Next passivePeer
      [Instrument DiameterRequestReceived EmptyString (cerFrom None); EvLoopSend PeerCloseCommand]
  (* Origin-Host not configured: CEA with DIAMETER_UNKNOWN_PEER *)
  /\ emitsUnknownPeerCEA
       (traceOf (eventLoopCase quietEnv
                   (IngressDiameterMessage (cerFrom (Some "stranger.igor"))) passivePeer))
  (* valid CER *)
  /\ GetResultCode (ceaSuccess passivePeer (cerFrom (Some "client.igor"))) = DIAMETER_SUCCESS.
Proof.
  split; [| split].
  - apply (cer_validation_outcomes quietEnv passivePeer (cerFrom None)
             (conj eq_refl (conj eq_refl eq_refl))).
    right. reflexivity.
  - apply (cer_validation_outcomes quietEnv passivePeer (cerFrom (Some "stranger.igor"))
             (conj eq_refl (conj eq_refl eq_refl))).
    + reflexivity.
    + right. exists (mkAVP "Origin-Host" (VString "stranger.igor")), (mkConn "10.0.0.1").
      repeat split; reflexivity.
  - destruct (cer_validation_outcomes quietEnv passivePeer (cerFrom (Some "client.igor"))
                (conj eq_refl (conj eq_refl eq_refl))) as (_ & _ & Hvalid).
    apply (Hvalid (mkAVP "Origin-Host" (VString "client.igor")) (mkConn "10.0.0.1")
             (Config.mkPeerConf "client.igor" "10.0.0.1" 3868 1000 300));
      reflexivity.
Defined.

(** ** C5 *)




(** ** C6 *)



(** ** C7 *)

Lemma set_requestsMap_same dp : set_requestsMap (requestsMap dp) dp = dp.
Proof. destruct dp; reflexivity. Qed.

(** C7: DiameterRequest is called with a message and a timeout.
    - On an Engaged peer, with a request that is not of the base
      application, when the timer fires first: the method has sent the
      EgressDiameterMessage with its response channel, sends
      CancelDiameterRequest with the HopByHopId of the message, records the
      timeout and returns the Timeout error.
    - The loop leaves the status as it is when it deals with that
      CancelDiameterRequest; and when it has dealt with the two messages of
      the call (the socket accepting the write, the id not pending
      before), the peer is still Engaged, the entry is gone again and the
      response channel is closed.
    - With ApplicationId 0, or a peer that is not Engaged, or a message
      that is not a request, the method returns an error and sends
      nothing. *)
Theorem request_timeout_cancels_and_keeps_status
    (env : Env) (dp : DiameterPeer) (dm : DiameterMessage) (ch : ChanRef)
    (sel : SelectOutcome) :
  let host := Config.DiameterHost (PeerConfig dp) in
  (status dp = StatusEngaged -> ApplicationId dm <> 0%Z -> IsRequest dm = true ->
     DiameterRequest dp dm ch TimerFired =
       (Failure "Timeout",
        [CallerSend (EgressDiameterMessage dm (Some ch));
         CallerSend (CancelDiameterRequest (HopByHopId dm));
         CallerInstrument DiameterRequestTimeout host dm])
     /\ (exists dp' tr,
          eventLoopCase env (CancelDiameterRequest (HopByHopId dm)) dp = Done Next dp' tr
          /\ status dp' = StatusEngaged)
     /\ (forall n conn,
          connection dp = Some conn ->
          requestsMap dp !! HopByHopId dm = None ->
          let r := eventLoopResume (S (S n)) []
                     (callerSent (snd (DiameterRequest dp dm ch TimerFired))) dp in
          loopEnd r = Waiting
          /\ status (finalPeer r) = StatusEngaged
          /\ requestsMap (finalPeer r) = requestsMap dp
          /\ loopTrace r = [ConnWrite dm; Instrument DiameterRequestSent host dm;
                            ChanClose ch]))
  /\ (ApplicationId dm = 0%Z \/ status dp <> StatusEngaged \/ IsRequest dm = false ->
      exists e, DiameterRequest dp dm ch sel = (Failure e, [])).
Proof.
  intros host. split.
  - intros Hst Happ Hreq.
    assert (Hcall : DiameterRequest dp dm ch TimerFired =
              (Failure "Timeout",
               [CallerSend (EgressDiameterMessage dm (Some ch));
                CallerSend (CancelDiameterRequest (HopByHopId dm));
                CallerInstrument DiameterRequestTimeout host dm])).
    { unfold DiameterRequest. apply Z.eqb_neq in Happ. rewrite Happ, Hst, Hreq. reflexivity. }
    split; [exact Hcall |]. split.
    + rewrite step_CancelDiameterRequest.
      destruct (requestsMap dp !! HopByHopId dm); eauto.
    + intros n conn Hconn Hfresh r. subst r. rewrite Hcall.
      unfold eventLoopResume, callerSent. cbn [snd omap list_omap eventLoopFrom hd tail].
      assert (Hegress :
                eventLoopCase quietEnv (EgressDiameterMessage dm (Some ch)) dp =
                  Done Next (set_requestsMap (<[HopByHopId dm := ch]> (requestsMap dp)) dp)
                    [ConnWrite dm; Instrument DiameterRequestSent host dm]).
      { act_unfold. cbv beta iota zeta. rewrite Hst, Hfresh.
        change ((StatusEngaged =? StatusConnected) || (StatusEngaged =? StatusEngaged))%Z
          with true.
        rewrite (bool_decide_eq_false_2 (is_Some (@None ChanRef)) is_Some_None).
        act_step. rewrite Hconn, Hreq. reflexivity. }
      rewrite Hegress. cbn [selfSent omap list_omap app].
      rewrite step_CancelDiameterRequest.
      cbn [requestsMap set_requestsMap]. rewrite lookup_insert_eq.
      cbn [selfSent omap list_omap app]. rewrite eventLoopFrom_nil.
      cbn [loopEnd finalPeer loopTrace status requestsMap set_requestsMap].
      rewrite delete_insert_id by exact Hfresh. auto.
  - intros Hbad. unfold DiameterRequest.
    destruct (ApplicationId dm =? 0)%Z eqn:Happ; [eauto |].
    destruct (status dp =? StatusEngaged)%Z eqn:Hst; [| simpl; eauto].
    destruct (IsRequest dm) eqn:Hreq; [| simpl; eauto].
    exfalso. apply Z.eqb_neq in Happ. apply Z.eqb_eq in Hst.
    destruct Hbad as [H | [H | H]]; [contradiction | contradiction | discriminate].
Qed.

Lemma request_timeout_cancels_and_keeps_status_witness :
  DiameterRequest (set_requestsMap ∅ busyPeer) gxRequest 2%positive TimerFired =
    (Failure "Timeout",
     [CallerSend (EgressDiameterMessage gxRequest (Some 2%positive));
      CallerSend (CancelDiameterRequest 7);
      CallerInstrument DiameterRequestTimeout "client.igor" gxRequest])
  /\ (exists e, DiameterRequest passivePeer gxRequest 2%positive TimerFired = (Failure e, [])).
Proof.
  split.
  - refine (proj1 (proj1 (request_timeout_cancels_and_keeps_status quietEnv
               (set_requestsMap ∅ busyPeer) gxRequest 2%positive TimerFired)
               eq_refl _ eq_refl)).
    discriminate.
  - refine (proj2 (request_timeout_cancels_and_keeps_status quietEnv
               passivePeer gxRequest 2%positive TimerFired) _).
    right. left. discriminate.
Defined.

End PeerProperties.

(* ===================================================================== *)
(** * The FreeRADIUS dictionary parser: properties *)
(* ===================================================================== *)

Module CoreProperties.
Import Core CoreSpec.




(** ** What the loop does with one offending line *)




(** ** C8 *)




End CoreProperties.

(* ===================================================================== *)
(** * The RADIUS server read loop: properties *)
(* ===================================================================== *)

Module RadiusProperties.
Import Radiusserver RadiusSpec.
Local Open Scope list_scope.

(** ** C9 *)

(** C9: readLoop has read a datagram.
    - If the sending IP is not in the clients table, the packet is dropped
      and a drop is recorded; nothing else happens.
    - If the packet decodes, its code is not Access-Request and its
      request authenticator does not validate against the secret of the
      client, the packet is dropped (and a drop is recorded).
    - If its code is Access-Request the authenticator check plays no part:
      whatever function checks authenticators, the outcome is the same,
      and that outcome is the dispatch.
    - A packet that passes the checks is recorded as a request and handed
      to the handler on a goroutine of its own; when the handler succeeds
      and its response serializes, the bytes are written to the socket
      for the address the datagram came from. *)
Theorem read_loop_datagram_processing
    (core : CoreFunctions) (rs : RadiusServer) (d : UDPDatagram) :
  let ip := IP (clientAddr d) in
  let reqBuf := take 4096 (payload d) in
  (forall e, FindRadiusClient rs ip = inl e ->
     serveDatagram core rs d = [RecordRadiusServerDrop ip "0"])
  /\ (forall client packet,
      FindRadiusClient rs ip = inr client ->
      NewRadiusPacketFromBytes core reqBuf (Secret client) Zero_authenticator = inr packet ->
      Code packet <> ACCESS_REQUEST ->
      ValidateRequestAuthenticator core reqBuf (Secret client) = false ->
      serveDatagram core rs d = [RecordRadiusServerDrop ip (Itoa (Code packet))])
  /\ (forall client packet validate,
      FindRadiusClient rs ip = inr client ->
      NewRadiusPacketFromBytes core reqBuf (Secret client) Zero_authenticator = inr packet ->
      Code packet = ACCESS_REQUEST ->
      serveDatagram (withValidator validate core) rs d = serveDatagram core rs d)
  /\ (forall client packet,
      passesChecks core rs d client packet ->
      serveDatagram core rs d =
        [RecordRadiusServerRequest ip (Itoa (Code packet));
         Go (respond core rs ip packet (Secret client) (clientAddr d))]
      /\ (forall response respBuf,
           handler rs packet = (response, None) ->
           ToBytes core response (Secret client) (Identifier packet) = inr respBuf ->
           exists recorded,
             respond core rs ip packet (Secret client) (clientAddr d) =
               [SocketWriteTo respBuf (clientAddr d); recorded])).
Proof.
  intros ip reqBuf. subst ip reqBuf. unfold serveDatagram.
  split; [| split; [| split]].
  - intros e He. rewrite He. reflexivity.
  - intros client packet Hc Hp Hcode Hval. rewrite Hc, Hp, Hval.
    apply Z.eqb_neq in Hcode. rewrite Hcode. reflexivity.
  - intros client packet validate Hc Hp Hcode. cbn [withValidator NewRadiusPacketFromBytes].
    rewrite Hc, Hp, Hcode. reflexivity.
  - intros client packet (Hc & Hp & Hok). rewrite Hc, Hp. split.
    + destruct Hok as [Hcode | Hval].
      * rewrite Hcode. reflexivity.
      * rewrite Hval. rewrite andb_false_r. reflexivity.
    + intros response respBuf Hh Hb. unfold respond. rewrite Hh, Hb.
      destruct (WriteTo core respBuf (clientAddr d)); eauto.
Qed.

Lemma read_loop_datagram_processing_witness :
  (* a stranger *)
  serveDatagram exampleCore exampleServer fromStranger =
    [RecordRadiusServerDrop "10.0.0.66" "0"]
  (* an Accounting-Request whose authenticator does not validate *)
  /\ serveDatagram exampleCore exampleServer (fromClient Byte.x04) =
       [RecordRadiusServerDrop "10.0.0.9" "4"]
  (* an Access-Request *)
  /\ serveDatagram exampleCore exampleServer (fromClient Byte.x01) =
       [RecordRadiusServerRequest "10.0.0.9" "1";
        Go [SocketWriteTo [Byte.x02; Byte.x07] (mkAddr "10.0.0.9" 50000);
            RecordRadiusServerResponse "10.0.0.9" "1"]].
Proof.
  split; [| split].
  - exact (proj1 (read_loop_datagram_processing exampleCore exampleServer fromStranger)
             "client not found" eq_refl).
  - refine (proj1 (proj2 (read_loop_datagram_processing exampleCore exampleServer
                            (fromClient Byte.x04)))
              (mkClient "secret") (mkPacket 4 7 []) eq_refl eq_refl _ eq_refl).
    discriminate.
  - refine (proj1 (proj2 (proj2 (proj2 (read_loop_datagram_processing exampleCore
                                          exampleServer (fromClient Byte.x01))))
                     (mkClient "secret") (mkPacket 1 7 []) _)).
    split; [reflexivity |]. split; [reflexivity | left; reflexivity].
Defined.

(** ** C10 *)

(** Datagrams do not end the loop, and leave the server as it is. *)
Lemma readLoopFrom_datagrams core rs ds rest :
  forall tr, exists tr',
    readLoopFrom core rs (map Datagram ds ++ rest) tr = readLoopFrom core rs rest tr'.
Proof.
  induction ds as [| d ds IH]; intros tr; cbn [map app readLoopFrom]; eauto.
Qed.

Lemma readLoopFrom_returned core rs inputs :
  status rs = StatusOperational ->
  forall tr,
    readLoopEnd (readLoopFrom core rs inputs tr) = ReturnedGracefully ->
    status (finalServer (readLoopFrom core rs inputs tr)) = StatusTerminated
    /\ exists ds rest, inputs = map Datagram ds ++ CloseCall :: rest.
Proof.
  intros Hst. induction inputs as [| i inputs IH]; intros tr Hend.
  - discriminate Hend.
  - destruct i as [d | e |]; cbn [readLoopFrom] in *.
    + destruct (IH _ Hend) as (Hfin & ds & rest & ->).
      split; [exact Hfin |]. exists (d :: ds), rest. reflexivity.
    + unfold onReadError in Hend. rewrite Hst in Hend. discriminate Hend.
    + split; [reflexivity |]. exists [], inputs. reflexivity.
Qed.

(** C10: the server is Operational (Close has not been called) and has
    read some datagrams.
    - If the next read returns an error, readLoop panics with that error.
    - If instead Close is called, the read returns an error with the
      status Terminated and readLoop returns.
    - readLoop returns in no other way: whenever it returns, Close was
      called after some datagrams and the status is Terminated. *)
Theorem read_error_panics_unless_terminated
    (core : CoreFunctions) (rs : RadiusServer) (ds : list UDPDatagram)
    (e : GoError) (rest : list SocketInput) :
  status rs = StatusOperational ->
  readLoopEnd (readLoop core rs (map Datagram ds ++ ReadError e :: rest)) = PanickedWith e
  /\ readLoopEnd (readLoop core rs (map Datagram ds ++ CloseCall :: rest)) = ReturnedGracefully
  /\ (forall inputs,
      readLoopEnd (readLoop core rs inputs) = ReturnedGracefully ->
      status (finalServer (readLoop core rs inputs)) = StatusTerminated
      /\ exists ds' rest', inputs = map Datagram ds' ++ CloseCall :: rest').
Proof.
  intros Hst. unfold readLoop. split; [| split].
  - destruct (readLoopFrom_datagrams core rs ds (ReadError e :: rest) []) as [tr' ->].
    cbn [readLoopFrom]. unfold onReadError. rewrite Hst. reflexivity.
  - destruct (readLoopFrom_datagrams core rs ds (CloseCall :: rest) []) as [tr' ->].
    reflexivity.
  - intros inputs. apply readLoopFrom_returned. exact Hst.
Qed.

Lemma read_error_panics_unless_terminated_witness :
  readLoopEnd (readLoop exampleCore exampleServer
                 [Datagram (fromClient Byte.x01); ReadError "network is down"])
    = PanickedWith "network is down"
  /\ readLoopEnd (readLoop exampleCore exampleServer
                    [Datagram (fromClient Byte.x01); CloseCall])
      = ReturnedGracefully.
Proof.
  destruct (read_error_panics_unless_terminated exampleCore exampleServer
              [fromClient Byte.x01] "network is down" [] eq_refl) as (Hpanic & _).
  destruct (read_error_panics_unless_terminated exampleCore exampleServer
              [fromClient Byte.x01] "unused" [] eq_refl) as (_ & Hret & _).
  split; [exact Hpanic | exact Hret].
Defined.

End RadiusProperties.

(* ===================================================================== *)
(** * The Diameter peer actor: runs of the event loop *)
(* ===================================================================== *)

Module PeerRunProperties.
Import Diamcodec DiamcodecNew Diampeer DiampeerRuntime PeerSpec PeerRunSpec PeerProperties.
Local Open Scope list_scope.

(** Splits the goal along every test of the code, innermost scrutinee
    first. *)
Ltac crunch :=
  repeat (cbv beta iota zeta;
          match goal with
          | |- context [match ?x with _ => _ end] =>
            lazymatch x with
            | context [match _ with _ => _ end] => fail
            | _ => destruct x eqn:?
            end
          end).

(** ** PeerDown and the end of the loop *)

(** One iteration: it returns exactly when it reports PeerDown, once, and
    then the status is Closed; an iteration that goes on, or panics, reports
    no PeerDown and does not set Closed. *)
Lemma step_exit_iff_peer_down env v dp :
  match eventLoopCase env v dp with
  | Done Next dp' tr =>
    countPeerDown tr = 0%nat /\ (status dp <> StatusClosed -> status dp' <> StatusClosed)
  | Done Exit dp' tr => countPeerDown tr = 1%nat /\ status dp' = StatusClosed
  | Panicked _ dp' tr =>
    countPeerDown tr = 0%nat /\ (status dp <> StatusClosed -> status dp' <> StatusClosed)
  end.
Proof.
  destruct v; act_unfold.
  all: crunch.
  all: split; try reflexivity.
  all: try (cbn; intros; assumption).
  all: try (cbn; intros; discriminate).
Qed.

Lemma countPeerDown_app tr1 tr2 :
  countPeerDown (tr1 ++ tr2) = (countPeerDown tr1 + countPeerDown tr2)%nat.
Proof. unfold countPeerDown. rewrite List.filter_app, length_app. reflexivity. Qed.

Lemma countPeerDown_deferred dp : countPeerDown (deferred dp) = 0%nat.
Proof.
  unfold deferred. destruct (bool_decide _), (readLoopChannel dp); reflexivity.
Qed.

(** X1: whatever the loop finds in its channel and whatever the socket
    does, the run reports PeerDown exactly once if the loop returns and not
    at all if it is still waiting, has panicked or has not finished; and a
    peer that was not Closed is Closed exactly when its loop has returned. *)
Theorem peer_down_exactly_when_loop_returns (fuel : nat) :
  forall (envs : list Env) (chan : list Event) (dp : DiameterPeer) (tr : list Effect),
    let r := eventLoopFrom fuel envs chan dp tr in
    countPeerDown (loopTrace r)
      = (countPeerDown tr + match loopEnd r with Returned => 1 | _ => 0 end)%nat
    /\ (status dp <> StatusClosed ->
        (status (finalPeer r) = StatusClosed <-> loopEnd r = Returned)).
Proof.
  induction fuel as [| fuel IH]; intros envs chan dp tr r; subst r.
  - destruct chan; cbn [eventLoopFrom loopTrace loopEnd finalPeer];
      (split; [lia |]); intros Hs; split; intros H; try contradiction; discriminate.
  - destruct chan as [| v chan]; cbn [eventLoopFrom].
    + cbn [loopTrace loopEnd finalPeer].
      split; [lia |]. intros Hs; split; intros H; try contradiction; discriminate.
    + pose proof (step_exit_iff_peer_down (hd quietEnv envs) v dp) as Hstep.
      destruct (eventLoopCase (hd quietEnv envs) v dp) as [[|] dp' tr' | msg dp' tr'].
      * destruct Hstep as [Hc Hs].
        destruct (IH (tail envs) (chan ++ selfSent tr') dp' (tr ++ tr')) as [IHc IHs].
        split.
        -- rewrite IHc, countPeerDown_app, Hc. lia.
        -- intros Hdp. apply IHs. auto.
      * destruct Hstep as [Hc Hs]. cbn [loopTrace loopEnd finalPeer]. split.
        -- rewrite !countPeerDown_app, Hc, countPeerDown_deferred. lia.
        -- intros _. split; auto.
      * destruct Hstep as [Hc Hs]. cbn [loopTrace loopEnd finalPeer]. split.
        -- rewrite !countPeerDown_app, Hc, countPeerDown_deferred. lia.
        -- intros Hdp. split; intros H; [apply Hs in Hdp; contradiction | discriminate].
Qed.

Lemma peer_down_exactly_when_loop_returns_witness :
  countPeerDown (loopTrace (eventLoopFrom 3 [] [IngressDiameterMessage (cerFrom None)]
                              passivePeer [])) = 1%nat
  /\ status (finalPeer (eventLoopFrom 3 [] [IngressDiameterMessage (cerFrom None)]
                          passivePeer [])) = StatusClosed.
Proof.
  destruct (peer_down_exactly_when_loop_returns 3 [] [IngressDiameterMessage (cerFrom None)]
              passivePeer []) as [Hcount Hclosed].
  split.
  - exact Hcount.
  - apply Hclosed; [discriminate | reflexivity].
Defined.

(** ** Pending requests *)

Lemma step_pending_entry env v dp h ch :
  requestsMap dp !! h = Some ch ->
  let r := eventLoopCase env v dp in
  requestsMap (peerOf r) !! h = Some ch
  \/ (requestsMap (peerOf r) !! h = None /\ In (ChanClose ch) (traceOf r)).
Proof.
  intros Hh r. subst r. destruct v; act_unfold.
  all: crunch;
    cbn [peerOf traceOf requestsMap set_requestsMap set_status set_connection
         set_readLoopChannel set_PeerConfig set_watchdogTicker set_outstandingDWA].
  all: try (left; exact Hh).
  - (* a request is stored: its id was not pending *)
    left. rewrite lookup_insert_ne; [exact Hh |]. intros <-.
    rewrite Hh in *. rewrite !bool_decide_eq_true_2 in * by eauto. discriminate.
  - left. rewrite lookup_insert_ne; [exact Hh |]. intros <-.
    rewrite Hh in *. rewrite !bool_decide_eq_true_2 in * by eauto. discriminate.
  - (* an answer is delivered *)
    destruct (decide (HopByHopId Message = h)) as [<- | Hne].
    + right. rewrite lookup_delete_eq. split; [reflexivity |].
      replace ch with c by congruence. cbn. auto.
    + left. rewrite lookup_delete_ne by exact Hne. exact Hh.
  - (* a request is cancelled *)
    destruct (decide (HopByHopId0 = h)) as [<- | Hne].
    + right. rewrite lookup_delete_eq. split; [reflexivity |].
      replace ch with c by congruence. cbn. auto.
    + left. rewrite lookup_delete_ne by exact Hne. exact Hh.
Qed.

(** X2: an entry of the requests map is never replaced and never dropped
    silently.  If the id h is pending with channel ch, then after any run of
    the loop either h is still pending with the same channel, or that
    channel has been closed. *)
Theorem pending_entry_kept_or_channel_closed (fuel : nat) :
  forall (envs : list Env) (chan : list Event) (dp : DiameterPeer) (tr : list Effect)
         (h : N) (ch : ChanRef),
    requestsMap dp !! h = Some ch ->
    let r := eventLoopFrom fuel envs chan dp tr in
    requestsMap (finalPeer r) !! h = Some ch \/ In (ChanClose ch) (loopTrace r).
Proof.
  assert (Hgen : forall envs chan dp tr h ch,
            requestsMap dp !! h = Some ch \/ In (ChanClose ch) tr ->
            let r := eventLoopFrom fuel envs chan dp tr in
            requestsMap (finalPeer r) !! h = Some ch \/ In (ChanClose ch) (loopTrace r)).
  { induction fuel as [| fuel IH]; intros envs chan dp tr h ch Hinv r; subst r.
    - destruct chan; exact Hinv.
    - destruct chan as [| v chan]; cbn [eventLoopFrom]; [exact Hinv |].
      assert (Hstep : requestsMap (peerOf (eventLoopCase (hd quietEnv envs) v dp)) !! h = Some ch
                      \/ In (ChanClose ch) (tr ++ traceOf (eventLoopCase (hd quietEnv envs) v dp))).
      { destruct Hinv as [Hh | Hin].
        - destruct (step_pending_entry (hd quietEnv envs) v dp h ch Hh) as [H | [_ H]];
            [left; exact H | right; apply in_or_app; right; exact H].
        - right. apply in_or_app. left. exact Hin. }
      destruct (eventLoopCase (hd quietEnv envs) v dp) as [[|] dp' tr' | msg dp' tr'];
        cbn [peerOf traceOf] in Hstep.
      + apply IH. exact Hstep.
      + cbn [finalPeer loopTrace]. destruct Hstep as [H | H]; [left; exact H |].
        right. rewrite app_assoc. apply in_or_app. left. exact H.
      + cbn [finalPeer loopTrace]. destruct Hstep as [H | H]; [left; exact H |].
        right. rewrite app_assoc. apply in_or_app. left. exact H. }
  intros envs chan dp tr h ch Hh. apply Hgen. left. exact Hh.
Qed.

Lemma pending_entry_kept_or_channel_closed_witness :
  let r := eventLoopFrom 2 [] [CancelDiameterRequest 7; IngressDiameterMessage gxAnswer]
             busyPeer [] in
  requestsMap (finalPeer r) !! 7%N = Some 1%positive \/ In (ChanClose 1%positive) (loopTrace r).
Proof.
  exact (pending_entry_kept_or_channel_closed 2 []
           [CancelDiameterRequest 7; IngressDiameterMessage gxAnswer] busyPeer [] 7%N 1%positive
           eq_refl).
Defined.

(** ** Writes to the socket *)

(** X3: the loop writes to the socket only in status Connected or Engaged:
    in every other status no message of its channel makes it write. *)
Theorem no_write_unless_connected_or_engaged
    (env : Env) (v : Event) (dp : DiameterPeer) :
  sendable dp = false ->
  written (traceOf (eventLoopCase env v dp)) = [].
Proof.
  unfold sendable. intros Hs. destruct v; act_unfold.
  all: try rewrite Hs.
  all: crunch; reflexivity.
Qed.

Lemma no_write_unless_connected_or_engaged_witness :
  written (traceOf (eventLoopCase quietEnv (EgressDiameterMessage gxRequest (Some 2%positive))
                      (set_status StatusClosing (set_requestsMap ∅ busyPeer)))) = [].
Proof.
  apply (no_write_unless_connected_or_engaged quietEnv
           (EgressDiameterMessage gxRequest (Some 2%positive))
           (set_status StatusClosing (set_requestsMap ∅ busyPeer))).
  reflexivity.
Defined.

(** ** What the loop does with a message to send *)

Lemma step_Egress_unsendable env dp m rchan :
  sendable dp = false ->
  eventLoopCase env (EgressDiameterMessage m rchan) dp = Done Next dp [].
Proof.
  unfold sendable. intros Hs. act_unfold. cbv beta iota zeta. rewrite Hs. reflexivity.
Qed.

(** A message without response channel (an answer, or a request of the base
    application). *)
Lemma step_Egress_plain env dp m conn :
  sendable dp = true -> connection dp = Some conn ->
  eventLoopCase env (EgressDiameterMessage m None) dp =
    match writeError env with
    | None =>
      Done Next dp
        [ConnWrite m; Instrument DiameterAnswerSent (Config.DiameterHost (PeerConfig dp)) m]
    | Some e =>
      Done Next (set_status StatusClosing dp)
        [ConnWrite m; EvLoopSend (WriteErrorMsg e);
         Instrument DiameterAnswerSent (Config.DiameterHost (PeerConfig dp)) m]
    end.
Proof.
  unfold sendable. intros Hs Hc. act_unfold. cbv beta iota zeta. rewrite Hs.
  rewrite (bool_decide_eq_false_2 (is_Some (@None ChanRef)) is_Some_None).
  rewrite andb_false_r. cbv beta iota zeta. rewrite Hc.
  destruct (writeError env), (IsRequest m); reflexivity.
Qed.

(** A request with its response channel, under an id that is not pending. *)
Lemma step_Egress_request env dp m ch conn :
  sendable dp = true -> connection dp = Some conn ->
  IsRequest m = true -> requestsMap dp !! HopByHopId m = None ->
  eventLoopCase env (EgressDiameterMessage m (Some ch)) dp =
    match writeError env with
    | None =>
      Done Next (set_requestsMap (<[HopByHopId m := ch]> (requestsMap dp)) dp)
        [ConnWrite m; Instrument DiameterRequestSent (Config.DiameterHost (PeerConfig dp)) m]
    | Some e =>
      Done Next
        (set_requestsMap (<[HopByHopId m := ch]> (requestsMap dp))
           (set_status StatusClosing dp))
        [ConnWrite m; EvLoopSend (WriteErrorMsg e); ChanSend ch (ReplyError e);
         Instrument DiameterRequestSent (Config.DiameterHost (PeerConfig dp)) m]
    end.
Proof.
  unfold sendable. intros Hs Hc Hreq Hfresh. act_unfold. cbv beta iota zeta.
  rewrite Hs, Hfresh.
  rewrite (bool_decide_eq_false_2 (is_Some (@None ChanRef)) is_Some_None).
  cbn [andb]. cbv beta iota zeta. rewrite Hc, Hreq.
  destruct (writeError env); reflexivity.
Qed.

Lemma written_app tr1 tr2 : written (tr1 ++ tr2) = written tr1 ++ written tr2.
Proof. unfold written. apply omap_app. Qed.

Lemma written_deferred dp : written (deferred dp) = [].
Proof.
  unfold deferred. destruct (bool_decide _), (readLoopChannel dp); reflexivity.
Qed.

(** ** Disconnect-Peer *)

(** X4: a Disconnect-Peer request makes the peer queue the DPA and the
    close command and set Closing at once; when the loop comes to the DPA
    the status does not let it out any more.  The loop returns without
    having written anything to the socket: the DPA is never sent. *)
Theorem disconnect_peer_answer_is_never_written
    (n : nat) (envs : list Env) (dp : DiameterPeer) (m : DiameterMessage) :
  isBase true "Disconnect-Peer" m ->
  let r := eventLoopResume (S (S (S n))) envs [IngressDiameterMessage m] dp in
  selfSent (loopTrace r)
    = [EgressDiameterMessage (NewInstanceDiameterAnswer (ci dp) m) None; PeerCloseCommand]
  /\ written (loopTrace r) = []
  /\ loopEnd r = Returned
  /\ status (finalPeer r) = StatusClosed.
Proof.
  intros (Hreq & Happ & Hcmd) r. subst r. unfold eventLoopResume. cbn [eventLoopFrom].
  assert (Hstep : eventLoopCase (hd quietEnv envs) (IngressDiameterMessage m) dp =
            Done Next (set_status StatusClosing dp)
              [Instrument DiameterRequestReceived (Config.DiameterHost (PeerConfig dp)) m;
               EvLoopSend (EgressDiameterMessage (NewInstanceDiameterAnswer (ci dp) m) None);
               EvLoopSend PeerCloseCommand]).
  { act_unfold. rewrite Hreq, Happ, Hcmd. reflexivity. }
  rewrite Hstep. cbn [selfSent omap list_omap app].
  rewrite step_Egress_unsendable by reflexivity.
  cbn [selfSent omap list_omap app]. rewrite step_PeerCloseCommand.
  cbn [loopTrace loopEnd finalPeer status set_status].
  split; [| split; [| split; reflexivity]].
  - unfold deferred, selfSent.
    destruct (cancel _), (bool_decide _), (readLoopChannel _); reflexivity.
  - unfold deferred, written.
    destruct (cancel _), (bool_decide _), (readLoopChannel _); reflexivity.
Qed.

Lemma disconnect_peer_answer_is_never_written_witness :
  written (loopTrace (eventLoopResume 3 [] [IngressDiameterMessage dprExample] busyPeer)) = []
  /\ loopEnd (eventLoopResume 3 [] [IngressDiameterMessage dprExample] busyPeer) = Returned.
Proof.
  destruct (disconnect_peer_answer_is_never_written 0 [] busyPeer dprExample
              (conj eq_refl (conj eq_refl eq_refl))) as (_ & Hw & Hend & _).
  split; assumption.
Defined.

(** ** Capabilities exchange, passive side *)

Lemma step_CER_rejected env dp m :
  isBase true "Capabilities-Exchange" m ->
  status dp = StatusConnected ->
  cerRejectedByACL dp m \/ cerUnknownHost dp m ->
  eventLoopCase env (IngressDiameterMessage m) dp =
    Done Next dp
      [Instrument DiameterRequestReceived (Config.DiameterHost (PeerConfig dp)) m;
       EvLoopSend (EgressDiameterMessage (ceaUnknownPeer dp m) None);
       EvLoopSend PeerCloseCommand].
Proof.
  intros (Hreq & Happ & Hcmd) Hst Hbad.
  act_unfold. rewrite Hreq, Happ, Hcmd. act_step. rewrite Hst. act_step.
  destruct Hbad as [(avp & conn & Havp & Hconn & Hacl)
                   | (avp & conn & Havp & Hconn & Hacl & Hfind)];
    rewrite Havp, Hconn, Hacl; [| rewrite Hfind]; reflexivity.
Qed.


(** X5: a CER that is rejected with DIAMETER_UNKNOWN_PEER leaves the status
    at Connected until the close command is dealt with, so that, unlike the
    DPA, the rejecting CEA does go out: whatever the socket answers, it is
    the one message written, the socket is closed only after it, and the
    loop returns with the peer Closed. *)
Theorem rejecting_cea_is_written_before_the_socket_is_closed
    (n : nat) (envs : list Env) (dp : DiameterPeer) (m : DiameterMessage) :
  isBase true "Capabilities-Exchange" m ->
  status dp = StatusConnected ->
  cerRejectedByACL dp m \/ cerUnknownHost dp m ->
  let r := eventLoop (S (S (S n))) envs [IngressDiameterMessage m] dp in
  written (loopTrace r) = [ceaUnknownPeer dp m]
  /\ (exists before after,
        loopTrace r = before ++ ConnWrite (ceaUnknownPeer dp m) :: after
        /\ ~ In ConnClose before /\ In ConnClose after)
  /\ loopEnd r = Returned
  /\ status (finalPeer r) = StatusClosed.
Proof.
  intros Hcer Hst Hbad r. subst r. unfold eventLoop. cbn [eventLoopFrom].
  set (dp0 := set_watchdogTicker _ dp).
  assert (Hbad0 : cerRejectedByACL dp0 m \/ cerUnknownHost dp0 m) by exact Hbad.
  assert (Hconn : exists conn, connection dp0 = Some conn).
  { destruct Hbad as [(avp & conn & _ & Hc & _) | (avp & conn & _ & Hc & _)]; eauto. }
  destruct Hconn as [conn Hconn].
  assert (Hst0 : status dp0 = StatusConnected) by exact Hst.
  assert (Hsend : sendable dp0 = true) by (unfold sendable; rewrite Hst0; reflexivity).
  rewrite (step_CER_rejected _ dp0 m Hcer Hst0 Hbad0).
  cbn [selfSent omap list_omap app].
  rewrite (step_Egress_plain _ dp0 _ conn Hsend Hconn).
  destruct (writeError (hd quietEnv (tail envs))) as [e |];
    cbn [selfSent omap list_omap app]; rewrite step_PeerCloseCommand;
    cbn [loopTrace loopEnd finalPeer status set_status connection cancel].
  all: rewrite Hconn; cbn [bool_decide decide_rel is_Some_dec].
  all: (split; [| split; [| split; reflexivity]]).
  all: try (unfold deferred, written; cbn [connection set_status]; rewrite Hconn;
            destruct (cancel dp0), (readLoopChannel _); reflexivity).
  all: eexists [_; _; _], _; (split; [reflexivity |]); split;
    [intros H; absurd_in | destruct (cancel dp0); cbn; auto].
Qed.


Lemma rejecting_cea_is_written_before_the_socket_is_closed_witness :
  written (loopTrace (eventLoop 3 [brokenPipe; brokenPipe]
                        [IngressDiameterMessage (cerFrom (Some "stranger.igor"))] passivePeer))
    = [ceaUnknownPeer passivePeer (cerFrom (Some "stranger.igor"))].
Proof.
  refine (proj1 (rejecting_cea_is_written_before_the_socket_is_closed 0
                   [brokenPipe; brokenPipe] passivePeer (cerFrom (Some "stranger.igor"))
                   (conj eq_refl (conj eq_refl eq_refl)) eq_refl _)).
  right. exists (mkAVP "Origin-Host" (VString "stranger.igor")), (mkConn "10.0.0.1").
  repeat split; reflexivity.
Defined.



(** ** A write that fails *)



(** ** Requests and their answers *)

Lemma step_answer_non_base env dp m :
  IsRequest m = false -> ApplicationId m <> 0%Z ->
  eventLoopCase env (IngressDiameterMessage m) dp =
    match requestsMap dp !! HopByHopId m with
    | Some respChann =>
      Done Next (set_requestsMap (delete (HopByHopId m) (requestsMap dp)) dp)
        [Instrument DiameterAnswerReceived (Config.DiameterHost (PeerConfig dp)) m;
         ChanSend respChann (ReplyMessage m); ChanClose respChann]
    | None =>
      Done Next dp
        [Instrument DiameterAnswerReceived (Config.DiameterHost (PeerConfig dp)) m;
         Instrument DiameterAnswerDiscarded (Config.DiameterHost (PeerConfig dp)) m]
    end.
Proof.
  intros Hreq Happ. act_unfold. rewrite Hreq.
  apply Z.eqb_neq in Happ. rewrite Happ.
  destruct (requestsMap dp !! HopByHopId m); reflexivity.
Qed.

Lemma sendable_engaged dp : status dp = StatusEngaged -> sendable dp = true.
Proof. unfold sendable. intros ->. reflexivity. Qed.

(** X8: the round trip of a request.  An Engaged peer gets a request with
    a response channel under an id that is not pending, the socket takes
    it, and then the answer with the same HopByHopId arrives.  The loop
    writes the request, delivers that answer on the channel of the request
    and closes it; the requests map is as it was before; and DiameterRequest,
    receiving what was delivered, returns that answer to its caller. *)
Theorem request_answer_round_trip
    (n : nat) (dp : DiameterPeer) (dm ans : DiameterMessage) (ch : ChanRef) (conn : Conn) :
  status dp = StatusEngaged ->
  connection dp = Some conn ->
  IsRequest dm = true -> ApplicationId dm <> 0%Z ->
  requestsMap dp !! HopByHopId dm = None ->
  IsRequest ans = false -> ApplicationId ans <> 0%Z ->
  HopByHopId ans = HopByHopId dm ->
  let host := Config.DiameterHost (PeerConfig dp) in
  let r := eventLoopResume (S (S n)) []
             [EgressDiameterMessage dm (Some ch); IngressDiameterMessage ans] dp in
  loopTrace r =
    [ConnWrite dm; Instrument DiameterRequestSent host dm;
     Instrument DiameterAnswerReceived host ans;
     ChanSend ch (ReplyMessage ans); ChanClose ch]
  /\ loopEnd r = Waiting
  /\ requestsMap (finalPeer r) = requestsMap dp
  /\ DiameterRequest dp dm ch (ResponseReceived (Some (ReplyMessage ans)))
       = (Answer ans, [CallerSend (EgressDiameterMessage dm (Some ch)); TimerStop]).
Proof.
  intros Hst Hconn Hreq Happ Hfresh Hareq Haapp Hid host r. subst r host.
  unfold eventLoopResume. cbn [eventLoopFrom hd tail].
  rewrite (step_Egress_request quietEnv dp dm ch conn (sendable_engaged dp Hst) Hconn Hreq Hfresh).
  cbn [writeError quietEnv selfSent omap list_omap app].
  rewrite (step_answer_non_base quietEnv _ ans Hareq Haapp).
  cbn [requestsMap set_requestsMap]. rewrite Hid, lookup_insert_eq.
  cbn [selfSent omap list_omap app]. rewrite eventLoopFrom_nil.
  cbn [loopTrace loopEnd finalPeer requestsMap set_requestsMap PeerConfig].
  rewrite (delete_insert_id _ _ _ Hfresh).
  split; [reflexivity |]. split; [reflexivity |]. split; [reflexivity |].
  unfold DiameterRequest. apply Z.eqb_neq in Happ. rewrite Happ, Hst, Hreq. reflexivity.
Qed.

Lemma request_answer_round_trip_witness :
  let r := eventLoopResume 2 []
             [EgressDiameterMessage gxRequest (Some 2%positive);
              IngressDiameterMessage gxAnswer] idlePeer in
  loopEnd r = Waiting /\ requestsMap (finalPeer r) = requestsMap idlePeer.
Proof.
  destruct (request_answer_round_trip 0 idlePeer gxRequest gxAnswer 2%positive
              (mkConn "10.0.0.1") eq_refl eq_refl eq_refl) as (_ & Hend & Hmap & _);
    try discriminate; try reflexivity.
  split; [exact Hend | exact Hmap].
Defined.

(** X9: the answer that comes too late.  The request was written, its
    timeout fired and the cancel was dealt with before the answer arrives.
    The cancel closes the channel of the request without sending anything
    on it; the late answer is counted as discarded and delivered to nobody;
    the requests map is as it was before the request. *)
Theorem late_answer_is_discarded
    (n : nat) (dp : DiameterPeer) (dm ans : DiameterMessage) (ch : ChanRef) (conn : Conn) :
  status dp = StatusEngaged ->
  connection dp = Some conn ->
  IsRequest dm = true ->
  requestsMap dp !! HopByHopId dm = None ->
  IsRequest ans = false -> ApplicationId ans <> 0%Z ->
  HopByHopId ans = HopByHopId dm ->
  let host := Config.DiameterHost (PeerConfig dp) in
  let r := eventLoopResume (S (S (S n))) []
             [EgressDiameterMessage dm (Some ch);
              CancelDiameterRequest (HopByHopId dm);
              IngressDiameterMessage ans] dp in
  loopTrace r =
    [ConnWrite dm; Instrument DiameterRequestSent host dm; ChanClose ch;
     Instrument DiameterAnswerReceived host ans;
     Instrument DiameterAnswerDiscarded host ans]
  /\ deliversNothing (loopTrace r)
  /\ loopEnd r = Waiting
  /\ requestsMap (finalPeer r) = requestsMap dp.
Proof.
  intros Hst Hconn Hreq Hfresh Hareq Haapp Hid host r. subst host.
  assert (Hr : r = mkLoopResult
                     (set_requestsMap (requestsMap dp)
                        (set_requestsMap (<[HopByHopId dm := ch]> (requestsMap dp)) dp))
                     [ConnWrite dm;
                      Instrument DiameterRequestSent (Config.DiameterHost (PeerConfig dp)) dm;
                      ChanClose ch;
                      Instrument DiameterAnswerReceived (Config.DiameterHost (PeerConfig dp)) ans;
                      Instrument DiameterAnswerDiscarded (Config.DiameterHost (PeerConfig dp)) ans]
                     Waiting).
  { subst r. unfold eventLoopResume. cbn [eventLoopFrom hd tail].
    rewrite (step_Egress_request quietEnv dp dm ch conn (sendable_engaged dp Hst) Hconn
               Hreq Hfresh).
    cbn [writeError quietEnv selfSent omap list_omap app].
    rewrite step_CancelDiameterRequest.
    cbn [requestsMap set_requestsMap]. rewrite lookup_insert_eq.
    cbn [selfSent omap list_omap app].
    rewrite (step_answer_non_base quietEnv _ ans Hareq Haapp).
    cbn [requestsMap set_requestsMap]. rewrite Hid, lookup_delete_eq.
    cbn [selfSent omap list_omap app]. rewrite eventLoopFrom_nil.
    cbn [PeerConfig set_requestsMap]. rewrite (delete_insert_id _ _ _ Hfresh). reflexivity. }
  rewrite Hr. cbn [loopTrace loopEnd finalPeer].
  split; [reflexivity |]. split; [| split; reflexivity].
  intros c rp H. absurd_in.
Qed.

Lemma late_answer_is_discarded_witness :
  deliversNothing
    (loopTrace (eventLoopResume 3 []
                  [EgressDiameterMessage gxRequest (Some 2%positive);
                   CancelDiameterRequest 7; IngressDiameterMessage gxAnswer] idlePeer)).
Proof.
  destruct (late_answer_is_discarded 0 idlePeer gxRequest gxAnswer 2%positive
              (mkConn "10.0.0.1") eq_refl eq_refl eq_refl eq_refl eq_refl) as (_ & Hnone & _);
    try discriminate; try reflexivity.
  exact Hnone.
Defined.

(** ** The watchdog *)

Lemma wrap_int_small z : (- 2 ^ 63 <= z < 2 ^ 63)%Z -> wrap_int z = z.
Proof. intros H. unfold wrap_int. rewrite Z.mod_small by lia. lia. Qed.

Lemma step_tick env dp dwr :
  NewInstanceDiameterRequest (ci dp) "Base" "Device-Watchdog"
    (freshHopByHopId env) (freshEndToEndId env) = Some dwr ->
  (outstandingDWA dp <= 2)%Z ->
  eventLoopCase env WatchdogMsg dp =
    Done Next (set_outstandingDWA (wrap_int (outstandingDWA dp + 1)) dp)
      [EvLoopSend (EgressDiameterMessage dwr None)].
Proof.
  intros Hdwr Hc. act_unfold. rewrite Hdwr.
  replace (outstandingDWA dp >? 2)%Z with false
    by (symmetry; rewrite Z.gtb_ltb; apply Z.ltb_ge; lia).
  reflexivity.
Qed.

Lemma step_DWA_success env dp m :
  isBase false "Device-Watchdog" m -> GetResultCode m = DIAMETER_SUCCESS ->
  eventLoopCase env (IngressDiameterMessage m) dp =
    Done Next (set_outstandingDWA (wrap_int (outstandingDWA dp - 1)) dp)
      [Instrument DiameterAnswerReceived (Config.DiameterHost (PeerConfig dp)) m].
Proof.
  intros (Hreq & Happ & Hcmd) Hrc. act_unfold. rewrite Hreq, Happ, Hcmd, Hrc. reflexivity.
Qed.

(** X10: a watchdog tick that is answered leaves the count of unanswered
    DWR where it was.  The tick queues a DWR and counts one up; the DWA with
    DIAMETER_SUCCESS counts one down; the DWR is the one message written. *)
Theorem answered_watchdog_restores_the_counter
    (n : nat) (dp : DiameterPeer) (dwr dwa : DiameterMessage) (conn : Conn) :
  status dp = StatusEngaged ->
  connection dp = Some conn ->
  NewInstanceDiameterRequest (ci dp) "Base" "Device-Watchdog" 0 0 = Some dwr ->
  (- 2 ^ 63 <= outstandingDWA dp <= 2)%Z ->
  isBase false "Device-Watchdog" dwa ->
  GetResultCode dwa = DIAMETER_SUCCESS ->
  let r := eventLoopResume (S (S (S n))) [] [WatchdogMsg; IngressDiameterMessage dwa] dp in
  outstandingDWA (finalPeer r) = outstandingDWA dp
  /\ written (loopTrace r) = [dwr]
  /\ loopEnd r = Waiting
  /\ status (finalPeer r) = StatusEngaged.
Proof.
  intros Hst Hconn Hdwr Hc Hdwa Hrc r. subst r.
  unfold eventLoopResume. cbn [eventLoopFrom hd tail].
  rewrite (step_tick quietEnv dp dwr Hdwr) by lia.
  cbn [selfSent omap list_omap app].
  rewrite (step_DWA_success quietEnv _ dwa Hdwa Hrc).
  cbn [selfSent omap list_omap app outstandingDWA set_outstandingDWA].
  rewrite (step_Egress_plain quietEnv _ dwr conn)
    by (try exact Hconn; apply sendable_engaged; exact Hst).
  cbn [writeError quietEnv selfSent omap list_omap app]. rewrite eventLoopFrom_nil.
  cbn [loopTrace loopEnd finalPeer outstandingDWA set_outstandingDWA status].
  rewrite (wrap_int_small (outstandingDWA dp + 1)) by lia.
  rewrite wrap_int_small by lia.
  split; [lia |]. split; [reflexivity |]. split; [reflexivity | exact Hst].
Qed.

Lemma answered_watchdog_restores_the_counter_witness :
  outstandingDWA (finalPeer (eventLoopResume 3 []
                               [WatchdogMsg; IngressDiameterMessage dwaExample] idlePeer))
    = 0%Z.
Proof.
  refine (proj1 (answered_watchdog_restores_the_counter 0 idlePeer _ dwaExample
                   (mkConn "10.0.0.1") eq_refl eq_refl eq_refl _
                   (conj eq_refl (conj eq_refl eq_refl)) eq_refl)).
  cbn. lia.
Defined.

(** X11: how long the watchdog waits.  An Engaged peer with no DWR
    unanswered hears nothing from the other side.  Its first three ticks
    each get their DWR written and none of them queues the close command;
    the counter stands at 3.  It is the fourth tick that queues the close
    command, and the loop returns without writing the fourth DWR. *)
Theorem unanswered_watchdog_closes_on_the_fourth_tick
    (n : nat) (dp : DiameterPeer) (dwr : DiameterMessage) (conn : Conn) :
  status dp = StatusEngaged ->
  connection dp = Some conn ->
  NewInstanceDiameterRequest (ci dp) "Base" "Device-Watchdog" 0 0 = Some dwr ->
  outstandingDWA dp = 0%Z ->
  let three := eventLoopResume (6 + n) [] [WatchdogMsg; WatchdogMsg; WatchdogMsg] dp in
  let fourth := eventLoopResume (2 + n) [] [WatchdogMsg] (finalPeer three) in
  loopEnd three = Waiting
  /\ written (loopTrace three) = [dwr; dwr; dwr]
  /\ ~ In PeerCloseCommand (selfSent (loopTrace three))
  /\ outstandingDWA (finalPeer three) = 3%Z
  /\ selfSent (loopTrace fourth)
       = [PeerCloseCommand; EgressDiameterMessage dwr None]
  /\ written (loopTrace fourth) = []
  /\ loopEnd fourth = Returned.
Proof.
  intros Hst Hconn Hdwr Hc three fourth.
  assert (Hthree : three = mkLoopResult
                     (set_outstandingDWA 3 (set_outstandingDWA 2 (set_outstandingDWA 1 dp)))
                     [EvLoopSend (EgressDiameterMessage dwr None);
                      EvLoopSend (EgressDiameterMessage dwr None);
                      EvLoopSend (EgressDiameterMessage dwr None);
                      ConnWrite dwr;
                      Instrument DiameterAnswerSent (Config.DiameterHost (PeerConfig dp)) dwr;
                      ConnWrite dwr;
                      Instrument DiameterAnswerSent (Config.DiameterHost (PeerConfig dp)) dwr;
                      ConnWrite dwr;
                      Instrument DiameterAnswerSent (Config.DiameterHost (PeerConfig dp)) dwr]
                     Waiting).
  { subst three. unfold eventLoopResume. cbn [Nat.add eventLoopFrom hd tail].
    rewrite (step_tick quietEnv dp dwr Hdwr) by lia. rewrite Hc.
    change (wrap_int (0 + 1)) with 1%Z. cbn [selfSent omap list_omap app].
    rewrite (step_tick quietEnv (set_outstandingDWA 1 dp) dwr Hdwr) by (cbn; lia).
    cbn [outstandingDWA set_outstandingDWA].
    change (wrap_int (1 + 1)) with 2%Z. cbn [selfSent omap list_omap app].
    rewrite (step_tick quietEnv (set_outstandingDWA 2 (set_outstandingDWA 1 dp)) dwr Hdwr)
      by (cbn; lia).
    cbn [outstandingDWA set_outstandingDWA].
    change (wrap_int (2 + 1)) with 3%Z. cbn [selfSent omap list_omap app].
    do 3 (rewrite (step_Egress_plain quietEnv _ dwr conn)
            by (try exact Hconn; apply sendable_engaged; exact Hst);
          cbn [writeError quietEnv selfSent omap list_omap app]).
    rewrite eventLoopFrom_nil. reflexivity. }
  subst fourth. rewrite Hthree. cbn [loopTrace loopEnd finalPeer].
  split; [reflexivity |]. split; [reflexivity |].
  split; [cbn; intros H; repeat (destruct H as [H | H]; [discriminate H |]); exact H |].
  split; [reflexivity |].
  unfold eventLoopResume. cbn [Nat.add eventLoopFrom hd tail].
  rewrite (step_WatchdogMsg quietEnv
             (set_outstandingDWA 3 (set_outstandingDWA 2 (set_outstandingDWA 1 dp))) dwr Hdwr).
  cbn [outstandingDWA set_outstandingDWA Z.gtb Z.compare Pos.compare Pos.compare_cont
       selfSent omap list_omap app].
  rewrite step_PeerCloseCommand. cbn [loopTrace loopEnd finalPeer].
  unfold deferred, selfSent, written.
  split; [| split; [| reflexivity]];
    destruct (cancel _), (bool_decide _), (readLoopChannel _); reflexivity.
Qed.

Lemma unanswered_watchdog_closes_on_the_fourth_tick_witness :
  loopEnd (eventLoopResume 6 [] [WatchdogMsg; WatchdogMsg; WatchdogMsg] idlePeer) = Waiting
  /\ outstandingDWA
       (finalPeer (eventLoopResume 6 [] [WatchdogMsg; WatchdogMsg; WatchdogMsg] idlePeer))
     = 3%Z.
Proof.
  destruct (unanswered_watchdog_closes_on_the_fourth_tick 0 idlePeer _ (mkConn "10.0.0.1")
              eq_refl eq_refl eq_refl eq_refl) as (Hend & _ & _ & Hcount & _).
  split; [exact Hend | exact Hcount].
Defined.

(** ** Active peers *)

(** X12: an active peer whose dial fails.  The connect goroutine sends
    ConnectionErrorMsg; the loop sets Closed, reports one PeerDown that
    carries the error of the dial, and returns.  Before and after, it
    touches no socket and waits for no reader: there is neither. *)
Theorem failed_dial_reports_peer_down_and_touches_no_socket
    (n : nat) (c : Config.ConfigurationManager) (peer : Config.DiameterPeer)
    (h : MessageHandler) (err : GoError) :
  let dp := fst (NewActiveDiameterPeer c peer h) in
  let r := eventLoop (S n) [] [snd (connect (DialFailed err) dp)]
             (fst (connect (DialFailed err) dp)) in
  status dp = StatusConnecting
  /\ loopTrace r = [ControlSend (PeerDownEvent (Some err)); TickerStop]
  /\ loopEnd r = Returned
  /\ status (finalPeer r) = StatusClosed.
Proof. repeat split; reflexivity. Qed.



(** ** The reader *)

(** X14: the reader hands every message it reads to the loop, in order,
    as an IngressDiameterMessage.  It leaves its loop and closes its channel
    exactly when a read fails, and then the notice of that failure
    (ReadEOFMsg for end of file, ReadErrorMsg otherwise) is the last thing
    it sends: what the socket would give after that is never read. *)
Theorem reader_notifies_once_and_last (reads : list ReadResult) :
  let sent := fst (readLoop reads) in
  let closed := snd (readLoop reads) in
  (closed = false ->
     exists dms, reads = map ReadMessage dms /\ sent = map IngressDiameterMessage dms)
  /\ (closed = true ->
      exists dms failure rest last,
        reads = map ReadMessage dms ++ failure :: rest
        /\ (forall dm, failure <> ReadMessage dm)
        /\ sent = map IngressDiameterMessage dms ++ [last]
        /\ isTerminal last
        /\ (last = ReadEOFMsg <-> failure = ReadEOF)).
Proof.
  induction reads as [| rd reads IH]; cbn [readLoop].
  - cbn. split; [intros _; exists []; split; reflexivity | discriminate].
  - destruct rd as [dm | | err].
    + destruct (readLoop reads) as [sent closed]. cbn [fst snd] in *.
      destruct IH as [IHopen IHclosed]. split.
      * intros Hc. destruct (IHopen Hc) as (dms & -> & ->).
        exists (dm :: dms). split; reflexivity.
      * intros Hc. destruct (IHclosed Hc) as (dms & failure & rest & last & -> & Hf & -> & Ht & Hl).
        exists (dm :: dms), failure, rest, last. repeat split; try assumption; apply Hl.
    + cbn. split; [discriminate |]. intros _.
      exists [], ReadEOF, reads, ReadEOFMsg.
      repeat split; try reflexivity; try discriminate. left. reflexivity.
    + cbn. split; [discriminate |]. intros _.
      exists [], (ReadFailure err), reads, (ReadErrorMsg err).
      repeat split; try reflexivity; try discriminate. right. eauto.
Qed.

End PeerRunProperties.

(* ===================================================================== *)
(** * The FreeRADIUS dictionary parser: invariants of a load *)
(* ===================================================================== *)

(*BEGIN*)
Module CoreInvariantProperties.
Import Core CoreSpec CoreInvariants CoreRunSpec.
Local Open Scope list_scope.

Lemma findVendorAVPs_found avps vendorId :
  forall k i, findVendorAVPs avps vendorId k = Some i ->
    exists va, avps !! (i - k)%nat = Some va /\ AVPsVendorId va = vendorId /\ (k <= i)%nat.
Proof.
  induction avps as [| va avps IH]; intros k i H; cbn [findVendorAVPs] in H; [discriminate |].
  destruct (AVPsVendorId va =? vendorId)%Z eqn:E.
  - injection H as <-. exists va. rewrite Nat.sub_diag. apply Z.eqb_eq in E. auto.
  - destruct (IH _ _ H) as (va' & Hl & Hid & Hle). exists va'.
    replace (i - k)%nat with (S (i - S k)) by lia. cbn. auto with lia.
Qed.

Lemma updateAttributes_Ok d i f d' :
  updateAttributes d i f = Ok d' ->
  exists va, Avps d !! i = Some va
    /\ d' = mkDict (Vendors d)
              (<[i := mkVendorAVPs (AVPsVendorId va) (f (Attributes va))]> (Avps d)).
Proof.
  unfold updateAttributes. destruct (Avps d !! i) as [va |]; [| discriminate].
  intros H. injection H as <-. eauto.
Qed.

(** What a line that does not fail has done. *)
Lemma parseLine_Ok_inv include text st st' :
  parseLine include text st = Ok st' -> lineStep include st st'.
Proof.
  destruct st as [d i]. unfold parseLine. intros H.
  repeat match type of H with
         | context [match ?x with _ => _ end] =>
           lazymatch x with
           | context [match _ with _ => _ end] => fail
           | _ => destruct x eqn:?
           end
         end; try discriminate H.
  all: try (injection H as <-); try (constructor; fail).
  all: try match goal with H : (0 =? 0)%Z = false |- _ => discriminate H end.
  all: try match goal with
           | H : ?f _ _ = Ok _ |- lineStep ?f _ _ => eapply stepInclude; exact H
           end.
  all: try match goal with
           | Hf : find _ (Vendors _) = Some _, Hi : findVendorAVPs _ _ _ = Some _ |- _ =>
             destruct (findVendorAVPs_found _ _ _ _ Hi) as (va & Hva & Hid & _);
             rewrite Nat.sub_0_r in Hva;
             eapply stepBeginVendor; [eapply find_some; exact Hf | exact Hva | exact Hid]
           end.
  all: match goal with
       | Hu : updateAttributes _ _ _ = Ok _ |- _ =>
         destruct (updateAttributes_Ok _ _ _ _ Hu) as (va & Hva & ->)
       end.
  all: try (apply stepValue; exact Hva).
  all: apply stepAttribute; [exact Hva |]; cbn [Type_];
    match goal with
    | Hn : negb (String.eqb _ "VSA") = true |- _ =>
      apply negb_true_iff, String.eqb_neq in Hn; exact Hn
    end.
Qed.

(** ** The dictionary only grows *)

Lemma blockExtends_refl va : blockExtends va va.
Proof. split; reflexivity. Qed.

Lemma extends_refl d : extends d d.
Proof.
  split; [reflexivity |]. split; [reflexivity |].
  intros i va H. exists va. split; [exact H | apply blockExtends_refl].
Qed.

Lemma extends_trans d1 d2 d3 : extends d1 d2 -> extends d2 d3 -> extends d1 d3.
Proof.
  intros (Hv1 & Hl1 & Hb1) (Hv2 & Hl2 & Hb2).
  split; [etransitivity; eassumption |]. split; [lia |].
  intros i va H. destruct (Hb1 i va H) as (va2 & H2 & Hid2 & Hp2).
  destruct (Hb2 i va2 H2) as (va3 & H3 & Hid3 & Hp3).
  exists va3. split; [exact H3 |]. split; [congruence | etransitivity; eassumption].
Qed.

Lemma extends_withStandardAVPs d : extends d (withStandardAVPs d).
Proof.
  unfold withStandardAVPs. destruct (Avps d) as [| va avps] eqn:E; [| apply extends_refl].
  split; [reflexivity |]. split; [rewrite E; cbn; lia |].
  intros i va H. rewrite E in H. destruct i; discriminate H.
Qed.

Lemma attrKey_addEnumValue attrs attr item val :
  map attrKey (addEnumValue attrs attr item val) = map attrKey attrs.
Proof.
  induction attrs as [| a attrs IH]; cbn [addEnumValue map]; [reflexivity |].
  destruct (String.eqb (Name a) attr); cbn [map]; [reflexivity | rewrite IH; reflexivity].
Qed.

Lemma extends_update d i va attrs' :
  Avps d !! i = Some va ->
  map attrKey (Attributes va) `prefix_of` map attrKey attrs' ->
  extends d (mkDict (Vendors d) (<[i := mkVendorAVPs (AVPsVendorId va) attrs']> (Avps d))).
Proof.
  intros Hva Hp. split; [reflexivity |]. cbn [Avps]. split; [rewrite length_insert; lia |].
  intros k vb Hk. destruct (decide (i = k)) as [-> | Hne].
  - rewrite list_lookup_insert_eq by (eapply lookup_lt_Some; exact Hk).
    eexists. split; [reflexivity |]. rewrite Hva in Hk. injection Hk as <-.
    split; [reflexivity | exact Hp].
  - rewrite list_lookup_insert_ne by exact Hne.
    exists vb. split; [exact Hk | apply blockExtends_refl].
Qed.

Lemma lineStep_extends include st st' :
  (forall w d d', include w d = Ok d' -> extends d d') ->
  lineStep include st st' ->
  extends (fst st) (fst st')
  /\ ((snd st < length (Avps (fst st)))%nat -> (snd st' < length (Avps (fst st')))%nat).
Proof.
  intros Hinc Hstep. destruct Hstep; cbn [fst snd Avps].
  - split; [apply extends_refl | trivial].
  - pose proof (Hinc _ _ _ H) as He. split; [exact He |]. destruct He as (_ & Hl & _). lia.
  - split.
    + split; [apply prefix_app_r; reflexivity |]. cbn [Avps Vendors].
      split; [rewrite length_app; lia |].
      intros k va Hk. exists va. split; [| apply blockExtends_refl].
      apply lookup_app_l_Some. exact Hk.
    + rewrite length_app. lia.
  - split; [apply extends_refl |]. intros _. eapply lookup_lt_Some. eassumption.
  - split; [apply extends_refl |]. lia.
  - split; [| rewrite length_insert; trivial].
    apply extends_update; [assumption |]. cbn [Attributes]. rewrite map_app.
    apply prefix_app_r. reflexivity.
  - split; [| rewrite length_insert; trivial].
    apply extends_update; [assumption |]. cbn [Attributes].
    rewrite attrKey_addEnumValue. reflexivity.
Qed.

Lemma parseLines_extends include lines :
  (forall w d d', include w d = Ok d' -> extends d d') ->
  forall st st', parseLines include lines st = Ok st' ->
    extends (fst st) (fst st')
    /\ ((snd st < length (Avps (fst st)))%nat -> (snd st' < length (Avps (fst st')))%nat).
Proof.
  intros Hinc. induction lines as [| text lines IH]; intros st st' H; cbn [parseLines] in H.
  - injection H as <-. split; [apply extends_refl | trivial].
  - destruct (parseLine include text st) as [st1 | | |] eqn:E; try discriminate H.
    destruct (lineStep_extends include st st1 Hinc (parseLine_Ok_inv _ _ _ _ E)) as [He Hi].
    destruct (IH _ _ H) as [He' Hi'].
    split; [eapply extends_trans; eassumption | auto].
Qed.

Lemma withStandardAVPs_nonempty d : (0 < length (Avps (withStandardAVPs d)))%nat.
Proof.
  unfold withStandardAVPs. destruct (Avps d) eqn:E; cbn [Avps length]; [lia |].
  rewrite E. cbn. lia.
Qed.

Lemma parse_extends fuel :
  forall c configObj d d',
    ParseFreeradiusDictionary fuel c configObj d = Ok d' ->
    extends d d' /\ (0 < length (Avps d'))%nat.
Proof.
  induction fuel as [| fuel IH]; intros c configObj d d' H; cbn [ParseFreeradiusDictionary] in H;
    [discriminate |].
  destruct (c configObj) as [err | data]; [discriminate |].
  destruct (parseLines _ _ _) as [[d1 i1] | | |] eqn:E; try discriminate H.
  injection H as <-.
  destruct (parseLines_extends _ _ (fun w d0 d0' H0 => proj1 (IH c w d0 d0' H0)) _ _ E)
    as [He Hi].
  cbn [fst snd] in He, Hi. split.
  - eapply extends_trans; [apply extends_withStandardAVPs | exact He].
  - pose proof (Hi (withStandardAVPs_nonempty d)). lia.
Qed.

(** X15: a load that returns nil has only added to the dictionary.  The
    vendors the dictionary had are a prefix of the vendors it has now; every
    vendor block is where it was, under the same vendor number, and the
    attributes it had are a prefix of its attributes now, with the code,
    name, type and flags they had (only their enumerated values may have
    gained items); and the dictionary has at least the block of the standard
    attributes. *)
Theorem load_only_adds_to_the_dictionary
    (fuel : nat) (c : string -> GoError + string) (configObj : string)
    (d d' : jRadiusDict) :
  ParseFreeradiusDictionary fuel c configObj d = Ok d' ->
  extends d d' /\ Avps d' <> [].
Proof.
  intros H. destruct (parse_extends fuel c configObj d d' H) as [He Hl].
  split; [exact He |]. intros E. rewrite E in Hl. cbn in Hl. lia.
Qed.

Lemma load_only_adds_to_the_dictionary_witness :
  exists d', ParseFreeradiusDictionary 2 twoObjects "dictionary" standardDict = Ok d'
    /\ extends standardDict d' /\ Avps d' <> [].
Proof.
  eexists. split; [vm_compute; reflexivity |].
  apply (load_only_adds_to_the_dictionary 2 twoObjects "dictionary" standardDict).
  vm_compute. reflexivity.
Defined.


(** ** The index of the current vendor block stays in range *)






(** ** Invariants of the dictionary *)

Section Invariant.
Variable P : jRadiusDict -> Prop.
Hypothesis P_standard : forall d, P d -> P (withStandardAVPs d).
Hypothesis P_step : forall include st st',
  (forall w d d', include w d = Ok d' -> P d -> P d') ->
  lineStep include st st' -> P (fst st) -> P (fst st').

Lemma parseLines_invariant include lines :
  (forall w d d', include w d = Ok d' -> P d -> P d') ->
  forall st st', parseLines include lines st = Ok st' -> P (fst st) -> P (fst st').
Proof.
  intros Hinc. induction lines as [| text lines IH]; intros st st' H HP;
    cbn [parseLines] in H.
  - injection H as <-. exact HP.
  - destruct (parseLine include text st) as [st1 | | |] eqn:E; try discriminate H.
    apply (IH _ _ H). exact (P_step include st st1 Hinc (parseLine_Ok_inv _ _ _ _ E) HP).
Qed.

Lemma parse_invariant fuel :
  forall c configObj d d',
    ParseFreeradiusDictionary fuel c configObj d = Ok d' -> P d -> P d'.
Proof.
  induction fuel as [| fuel IH]; intros c configObj d d' H HP;
    cbn [ParseFreeradiusDictionary] in H; [discriminate H |].
  destruct (c configObj) as [err | data]; [discriminate H |].
  destruct (parseLines _ _ _) as [[d1 i1] | | |] eqn:E; try discriminate H.
  injection H as <-.
  exact (parseLines_invariant _ _ (IH c) _ _ E (P_standard d HP)).
Qed.

End Invariant.

Lemma In_insert_block (avps : list jRadiusVendorAVPs) i vb va :
  In va (<[i := vb]> avps) -> va = vb \/ In va avps.
Proof.
  revert i. induction avps as [| x avps IH]; intros i H; [destruct i; contradiction H |].
  destruct i as [| i]; cbn in H.
  - destruct H as [<- | H]; [left; reflexivity | right; right; exact H].
  - destruct H as [<- | H]; [right; left; reflexivity |].
    destruct (IH i H) as [-> | H']; [left; reflexivity | right; right; exact H'].
Qed.

Lemma In_addEnumValue attrs attr item val a :
  In a (addEnumValue attrs attr item val) ->
  exists a0, In a0 attrs /\ Type_ a0 = Type_ a /\ Name a0 = Name a.
Proof.
  induction attrs as [| x attrs IH]; cbn [addEnumValue]; [contradiction |].
  destruct (String.eqb (Name x) attr).
  - intros [E | H].
    + exists x. subst a. repeat split. left; reflexivity.
    + exists a. repeat split. right; exact H.
  - intros [E | H].
    + exists a. subst a. repeat split. left; reflexivity.
    + destruct (IH H) as (a0 & Hin & Ht). exists a0. split; [right; exact Hin | exact Ht].
Qed.

Lemma noVSA_step include st st' :
  (forall w d d', include w d = Ok d' -> noVSA d -> noVSA d') ->
  lineStep include st st' -> noVSA (fst st) -> noVSA (fst st').
Proof.
  intros Hinc Hstep HP. destruct Hstep; cbn [fst] in *; try exact HP.
  - exact (Hinc _ _ _ H HP).
  - intros va a Hva Ha. cbn [Avps] in Hva. apply in_app_or in Hva as [Hva | [<- | []]].
    + exact (HP va a Hva Ha).
    + destruct Ha.
  - intros vb a Hvb Ha. cbn [Avps] in Hvb.
    apply In_insert_block in Hvb as [-> | Hvb]; [| exact (HP vb a Hvb Ha)].
    cbn [Attributes] in Ha. apply in_app_or in Ha as [Ha | [<- | []]]; [| assumption].
    refine (HP va a _ Ha). apply list_elem_of_In. eapply list_elem_of_lookup_2. eassumption.
  - intros vb a Hvb Ha. cbn [Avps] in Hvb.
    apply In_insert_block in Hvb as [-> | Hvb]; [| exact (HP vb a Hvb Ha)].
    cbn [Attributes] in Ha. apply In_addEnumValue in Ha as (a0 & Hin & Ht & _).
    rewrite <- Ht. refine (HP va a0 _ Hin).
    apply list_elem_of_In. eapply list_elem_of_lookup_2. eassumption.
Qed.

Lemma noVSA_standard d : noVSA d -> noVSA (withStandardAVPs d).
Proof.
  unfold withStandardAVPs. destruct (Avps d) eqn:E; [| trivial].
  intros _ va a Hva Ha. cbn in Hva. destruct Hva as [<- | []]. destruct Ha.
Qed.

(** X17: an attribute of type "VSA" is never stored.  If no vendor block of
    the dictionary holds one before the load, none does after a load that
    returns nil, whatever the files and the files they include say. *)
Theorem load_never_stores_a_vsa_attribute
    (fuel : nat) (c : string -> GoError + string) (configObj : string)
    (d d' : jRadiusDict) :
  noVSA d ->
  ParseFreeradiusDictionary fuel c configObj d = Ok d' ->
  noVSA d'.
Proof.
  intros HP H. exact (parse_invariant noVSA noVSA_standard noVSA_step fuel _ _ _ _ H HP).
Qed.

Lemma load_never_stores_a_vsa_attribute_witness :
  exists d', ParseFreeradiusDictionary 2 twoObjects "dictionary" standardDict = Ok d'
    /\ noVSA d'.
Proof.
  eexists. split; [vm_compute; reflexivity |].
  apply (load_never_stores_a_vsa_attribute 2 twoObjects "dictionary" standardDict).
  - intros va a [<- | [<- | []]] Ha; [| destruct Ha].
    destruct Ha as [<- | [<- | []]]; discriminate.
  - vm_compute. reflexivity.
Defined.


Lemma vendorsHaveBlocks_update d i va attrs' :
  Avps d !! i = Some va -> vendorsHaveBlocks d ->
  vendorsHaveBlocks
    (mkDict (Vendors d) (<[i := mkVendorAVPs (AVPsVendorId va) attrs']> (Avps d))).
Proof.
  intros Hva HP v Hv. destruct (HP v Hv) as (k & vb & Hk & Hid). cbn [Vendors Avps].
  destruct (decide (i = k)) as [-> | Hne].
  - eexists k, _. rewrite list_lookup_insert_eq by (eapply lookup_lt_Some; exact Hk).
    split; [reflexivity |]. cbn. congruence.
  - exists k, vb. rewrite list_lookup_insert_ne by exact Hne. split; assumption.
Qed.

Lemma vendorsHaveBlocks_step include st st' :
  (forall w d d', include w d = Ok d' -> vendorsHaveBlocks d -> vendorsHaveBlocks d') ->
  lineStep include st st' -> vendorsHaveBlocks (fst st) -> vendorsHaveBlocks (fst st').
Proof.
  intros Hinc Hstep HP. destruct Hstep; cbn [fst] in *; try exact HP.
  - exact (Hinc _ _ _ H HP).
  - intros v Hv. cbn [Vendors Avps] in *. apply in_app_or in Hv as [Hv | [<- | []]].
    + destruct (HP v Hv) as (k & vb & Hk & Hid). exists k, vb.
      split; [apply lookup_app_l_Some; exact Hk | exact Hid].
    + exists (length (Avps d)), (mkVendorAVPs id []).
      split; [| reflexivity]. rewrite lookup_app_r by lia.
      rewrite Nat.sub_diag. reflexivity.
  - apply vendorsHaveBlocks_update; assumption.
  - apply vendorsHaveBlocks_update; assumption.
Qed.

Lemma vendorsHaveBlocks_standard d :
  vendorsHaveBlocks d -> vendorsHaveBlocks (withStandardAVPs d).
Proof.
  unfold withStandardAVPs. destruct (Avps d) eqn:E; [| trivial].
  intros HP v Hv. destruct (HP v Hv) as (k & vb & Hk & _).
  rewrite E in Hk. destruct k; discriminate Hk.
Qed.

(** X18: every vendor of the dictionary has a vendor block.  If each entry of
    dict.Vendors has an entry of dict.Avps with its number before the load,
    the same holds after a load that returns nil: VENDOR appends both
    together and nothing removes or renumbers a block. *)
Theorem load_keeps_a_block_for_every_vendor
    (fuel : nat) (c : string -> GoError + string) (configObj : string)
    (d d' : jRadiusDict) :
  vendorsHaveBlocks d ->
  ParseFreeradiusDictionary fuel c configObj d = Ok d' ->
  vendorsHaveBlocks d'.
Proof.
  intros HP H.
  exact (parse_invariant vendorsHaveBlocks vendorsHaveBlocks_standard
           vendorsHaveBlocks_step fuel _ _ _ _ H HP).
Qed.

Lemma load_keeps_a_block_for_every_vendor_witness :
  exists d', ParseFreeradiusDictionary 2 twoObjects "dictionary" standardDict = Ok d'
    /\ vendorsHaveBlocks d'.
Proof.
  eexists. split; [vm_compute; reflexivity |].
  apply (load_keeps_a_block_for_every_vendor 2 twoObjects "dictionary" standardDict).
  - intros v [<- | []]. exists 1%nat, (mkVendorAVPs 311 []). split; reflexivity.
  - vm_compute. reflexivity.
Defined.


(** ** $INCLUDE *)










(** ** VALUE *)










(** ** VENDOR and BEGIN-VENDOR *)





End CoreInvariantProperties.

(* ===================================================================== *)
(** * The RADIUS server read loop: runs *)
(* ===================================================================== *)

Module RadiusRunProperties.
Import Radiusserver RadiusSpec RadiusAccounting.
Local Open Scope list_scope.

Lemma count_app p tr1 tr2 : count p (tr1 ++ tr2) = (count p tr1 + count p tr2)%nat.
Proof. unfold count. rewrite List.filter_app, length_app. reflexivity. Qed.

Lemma goroutines_app tr1 tr2 : goroutines (tr1 ++ tr2) = goroutines tr1 ++ goroutines tr2.
Proof. apply omap_app. Qed.

Lemma respond_settled core rs ip packet secret addr :
  settled addr (respond core rs ip packet secret addr).
Proof.
  unfold respond, settled.
  destruct (handler rs packet) as [response [e |]].
  - cbn. repeat split; try lia.
  - destruct (ToBytes core response secret (Identifier packet)) as [e | respBuf].
    + cbn. repeat split; try lia.
    + destruct (WriteTo core respBuf addr); cbn; repeat split; try lia;
        intros a [<- | []]; reflexivity.
Qed.

(** What one datagram adds to the trace. *)
Lemma serveDatagram_account core rs d :
  count isWrite (serveDatagram core rs d) = 0%nat
  /\ count isResponse (serveDatagram core rs d) = 0%nat
  /\ length (goroutines (serveDatagram core rs d)) = count isRequest (serveDatagram core rs d)
  /\ (count isRequest (serveDatagram core rs d)
      + count isOutcome (serveDatagram core rs d) <= 1)%nat
  /\ Forall (settled (clientAddr d)) (goroutines (serveDatagram core rs d)).
Proof.
  unfold serveDatagram.
  destruct (FindRadiusClient rs (IP (clientAddr d))) as [e | client].
  { cbn. repeat split; try lia. constructor. }
  destruct (NewRadiusPacketFromBytes core _ _ _) as [e | packet].
  { cbn. repeat split; try lia. constructor. }
  destruct (negb _ && negb _).
  { cbn. repeat split; try lia. constructor. }
  cbn. repeat split; try lia. constructor; [apply respond_settled | constructor].
Qed.

Lemma readLoopFrom_trace core rs inputs :
  forall tr,
    serverTrace (readLoopFrom core rs inputs tr)
    = tr ++ concat (map (serveDatagram core rs) (datagrams (readInputs inputs))).
Proof.
  induction inputs as [| i inputs IH]; intros tr; cbn [readLoopFrom].
  - cbn. rewrite app_nil_r. reflexivity.
  - destruct i as [d | e |].
    + rewrite IH. cbn. rewrite <- app_assoc. reflexivity.
    + unfold onReadError. cbn. rewrite app_nil_r. destruct (_ =? _)%Z; reflexivity.
    + unfold onReadError. cbn. rewrite app_nil_r. reflexivity.
Qed.

Lemma account_concat core rs ds :
  let tr := concat (map (serveDatagram core rs) ds) in
  count isWrite tr = 0%nat
  /\ count isResponse tr = 0%nat
  /\ length (goroutines tr) = count isRequest tr
  /\ (count isRequest tr + count isOutcome tr <= length ds)%nat
  /\ Forall (fun child => exists d, In d ds /\ settled (clientAddr d) child) (goroutines tr).
Proof.
  induction ds as [| d ds IH]; cbn [map concat].
  - cbn. repeat split; try lia. constructor.
  - cbn zeta in *. destruct IH as (Hw & Hr & Hg & Hq & Hs).
    destruct (serveDatagram_account core rs d) as (Hw1 & Hr1 & Hg1 & Hq1 & Hs1).
    rewrite !count_app, goroutines_app, length_app. cbn [length].
    repeat split; try lia.
    apply Forall_app. split.
    + eapply Forall_impl; [exact Hs1 |]. intros child Hc. exists d. split; [left; reflexivity | exact Hc].
    + eapply Forall_impl; [exact Hs |]. intros child (d0 & Hin & Hc).
      exists d0. split; [right; exact Hin | exact Hc].
Qed.

Lemma datagrams_readInputs_In inputs d :
  In d (datagrams (readInputs inputs)) -> In (Datagram d) inputs.
Proof.
  induction inputs as [| i inputs IH]; [intros [] |].
  destruct i as [d0 | e |]; cbn.
  - intros [<- | H]; [left; reflexivity | right; exact (IH H)].
  - intros [].
  - intros [].
Qed.

(** X24: the account of a run of readLoop.  Whatever the socket delivers,
    the loop itself never writes to the socket and never records a
    response; it starts one goroutine for each request it records, and
    records at most one request or drop for a datagram.  Each goroutine
    records exactly one response or drop, writes at most once, records a
    response only after its write, starts nothing, and writes to no address
    but the one its datagram was read from. *)
Theorem read_loop_accounts_for_every_request
    (core : CoreFunctions) (rs : RadiusServer) (inputs : list SocketInput) :
  let tr := serverTrace (readLoop core rs inputs) in
  count isWrite tr = 0%nat
  /\ count isResponse tr = 0%nat
  /\ length (goroutines tr) = count isRequest tr
  /\ (count isRequest tr + count isOutcome tr <= length (datagrams inputs))%nat
  /\ Forall (fun child =>
       count isOutcome child = 1%nat
       /\ (count isWrite child <= 1)%nat
       /\ (count isResponse child <= count isWrite child)%nat
       /\ goroutines child = []
       /\ exists d, In (Datagram d) inputs
            /\ forall a, In a (writeAddrs child) -> a = clientAddr d)
     (goroutines tr).
Proof.
  cbn zeta. unfold readLoop. rewrite readLoopFrom_trace. cbn [app].
  destruct (account_concat core rs (datagrams (readInputs inputs)))
    as (Hw & Hr & Hg & Hq & Hs). cbn zeta in *.
  repeat split; try assumption.
  - assert (Hlen : (length (datagrams (readInputs inputs)) <= length (datagrams inputs))%nat).
    { clear. induction inputs as [| i inputs IH]; [reflexivity |].
      unfold datagrams in *. destruct i; cbn; lia. }
    lia.
  - eapply Forall_impl; [exact Hs |].
    intros child (d & Hin & H1 & H2 & H3 & H4 & _ & H6).
    repeat split; try assumption.
    exists d. split; [apply datagrams_readInputs_In; exact Hin | exact H6].
Qed.

(** X25: readLoop keeps nothing from one datagram to the next, and reads
    nothing after the read that ends it.  The trace of a run is the traces
    of its datagrams one after the other, each served by the server as it
    was when the loop started; the inputs after the first read error or
    call of Close change nothing. *)
Theorem read_loop_serves_datagrams_in_turn_until_it_ends
    (core : CoreFunctions) (rs : RadiusServer) (inputs : list SocketInput) :
  serverTrace (readLoop core rs inputs)
  = concat (map (serveDatagram core rs) (datagrams (readInputs inputs)))
  /\ readLoop core rs inputs = readLoop core rs (readInputs inputs)
  /\ (readLoopEnd (readLoop core rs inputs) = Blocked
      <-> inputs = map Datagram (datagrams inputs)).
Proof.
  unfold readLoop. split; [apply readLoopFrom_trace |].
  generalize (@nil ServerEffect) as tr.
  induction inputs as [| i inputs IH]; intros tr.
  - split; [reflexivity |]. split; reflexivity.
  - destruct i as [d | e |]; cbn [readInputs readLoopFrom].
    + destruct (IH (tr ++ serveDatagram core rs d)) as [Heq Hiff].
      split; [exact Heq |]. rewrite Hiff. unfold datagrams. cbn.
      split; [congruence |]. intros [= H]. exact H.
    + split; [reflexivity |]. unfold onReadError, datagrams. cbn [omap list_omap].
      split; [destruct (_ =? _)%Z; discriminate |].
      intros H. destruct (omap _ inputs); discriminate H.
    + split; [reflexivity |]. unfold datagrams. cbn [omap list_omap].
      split; [discriminate |].
      intros H. destruct (omap _ inputs); discriminate H.
Qed.

End RadiusRunProperties.

(* ===================================================================== *)
(** * The configuration manager: properties *)
(* ===================================================================== *)

Module ConfigProperties.
Import ConfigObjects.
Local Open Scope list_scope.

Lemma set_InFlight_same c : set_InFlight (InFlight c) c = c.
Proof. destruct c; reflexivity. Qed.

Lemma ReadConfigObject_set_InFlight env f c objectName :
  ReadConfigObject env (set_InFlight f c) objectName = ReadConfigObject env c objectName.
Proof. reflexivity. Qed.

Lemma ReadConfigObject_set_ObjectCache env m c objectName :
  ReadConfigObject env (set_ObjectCache m c) objectName = ReadConfigObject env c objectName.
Proof. reflexivity. Qed.

(** X26: an object that GetConfigObject has returned is served from the
    cache from then on.  After a call that returned an object and no error,
    a call for the same name returns the same object and leaves the manager
    as it is, whatever the files and URLs hold by then: nothing is read. *)
Theorem cached_object_is_served_without_reading
    (env env' : Env) (c c' : ConfigManager) (objectName : string) (obj : ConfigObject) :
  GetConfigObject env c objectName = Returns c' (obj, None) ->
  GetConfigObject env' c' objectName = Returns c' (obj, None).
Proof.
  unfold GetConfigObject. intros H.
  assert (Hcached : ObjectCache c' !! objectName = Some obj).
  { destruct (ObjectCache c !! objectName) as [o |] eqn:Hc.
    - injection H as <- <-. exact Hc.
    - assert (Hmiss : forall c0 r, ObjectCache c0 !! objectName = None ->
                tryAgain c0 objectName = (r, None) -> False).
      { intros c0 r H0 H1. unfold tryAgain in H1. rewrite H0 in H1. discriminate H1. }
      destruct (InFlight c !! objectName) as [[|] |] eqn:Hf.
      + injection H as <- Ht. destruct (Hmiss _ _ Hc Ht).
      + destruct (ReadConfigObject env c objectName) as [[o [e |]] | msg];
          try discriminate H.
        * injection H as <- Ht. destruct (Hmiss _ _ Hc Ht).
        * injection H as <- Ht. unfold tryAgain in Ht. cbn in Ht |- *.
          rewrite lookup_insert_eq in Ht |- *. congruence.
      + destruct (ReadConfigObject env _ objectName) as [[o [e |]] | msg];
          try discriminate H.
        * injection H as <- Ht. destruct (Hmiss _ _ Hc Ht).
        * injection H as <- Ht. unfold tryAgain in Ht. cbn in Ht |- *.
          rewrite lookup_insert_eq in Ht |- *. congruence. }
  rewrite Hcached. reflexivity.
Qed.

Lemma cached_object_is_served_without_reading_witness :
  exists c' obj,
    GetConfigObject exampleEnv exampleConfig "diameterServer.json" = Returns c' (obj, None)
    /\ RawText obj = "of unit1"
    /\ GetConfigObject emptyEnv c' "diameterServer.json" = Returns c' (obj, None).
Proof.
  eexists _, _. split; [vm_compute; reflexivity |]. split; [reflexivity |].
  apply (cached_object_is_served_without_reading exampleEnv emptyEnv exampleConfig).
  vm_compute. reflexivity.
Defined.

(** X27: a failed retrieval is not remembered, and its error is not the one
    returned.  When the object is not in the cache and ReadConfigObject
    returns an error, GetConfigObject returns the error "could not get
    configuration object <name>" in place of that error and leaves the
    manager exactly as it was: the next call reads again. *)
Theorem failed_retrieval_is_not_cached
    (env : Env) (c : ConfigManager) (objectName : string)
    (obj : ConfigObject) (err : GoError) :
  ObjectCache c !! objectName = None ->
  InFlight c !! objectName = None ->
  ReadConfigObject env c objectName = Returned (obj, Some err) ->
  GetConfigObject env c objectName
  = Returns c (zeroConfigObject,
               Some ("could not get configuration object " ++ objectName)%string).
Proof.
  intros Hc Hf Hread. unfold GetConfigObject.
  rewrite Hc, Hf, ReadConfigObject_set_InFlight, Hread.
  unfold tryAgain. cbn. rewrite Hc, (delete_insert_id _ _ _ Hf).
  destruct c; reflexivity.
Qed.

Lemma failed_retrieval_is_not_cached_witness :
  GetConfigObject exampleEnv exampleConfig "template_missing"
  = Returns exampleConfig
      (zeroConfigObject, Some "could not get configuration object template_missing").
Proof.
  apply (failed_retrieval_is_not_cached exampleEnv exampleConfig "template_missing"
           zeroConfigObject "connection refused").
  - reflexivity.
  - reflexivity.
  - vm_compute. reflexivity.
Defined.

(** X28: InvalidateConfigObject makes the next GetConfigObject read the
    object again.  After it, a call for that name whose retrieval succeeds
    returns what was read, not what the cache held, and caches it; the
    entries of the other names are as they were. *)
Theorem invalidated_object_is_read_again
    (env : Env) (c : ConfigManager) (objectName : string) (obj : ConfigObject) :
  InFlight c !! objectName = None ->
  ReadConfigObject env c objectName = Returned (obj, None) ->
  GetConfigObject env (InvalidateConfigObject c objectName) objectName
  = Returns (set_ObjectCache (<[objectName := obj]> (ObjectCache c)) c) (obj, None)
  /\ forall other, other <> objectName ->
       ObjectCache (InvalidateConfigObject c objectName) !! other = ObjectCache c !! other.
Proof.
  intros Hf Hread. split.
  - unfold GetConfigObject, InvalidateConfigObject. cbn [ObjectCache set_ObjectCache InFlight].
    rewrite lookup_delete_eq, Hf, ReadConfigObject_set_InFlight,
      ReadConfigObject_set_ObjectCache, Hread.
    unfold tryAgain. cbn. rewrite lookup_insert_eq, insert_delete_eq.
    rewrite (delete_insert_id _ _ _ Hf). reflexivity.
  - intros other Hne. cbn. apply lookup_delete_ne. congruence.
Qed.

Lemma invalidated_object_is_read_again_witness :
  let stale := mkConfigObject None "stale" in
  let c := set_ObjectCache {[ "diameterServer.json" := stale ]} exampleConfig in
  GetConfigObject exampleEnv c "diameterServer.json" = Returns c (stale, None)
  /\ GetConfigObject exampleEnv (InvalidateConfigObject c "diameterServer.json")
       "diameterServer.json"
     = Returns (set_ObjectCache
                  (<["diameterServer.json" := mkConfigObject None "of unit1"]> (ObjectCache c))
                  c)
         (mkConfigObject None "of unit1", None).
Proof.
  cbn zeta. split; [vm_compute; reflexivity |].
  apply (invalidated_object_is_read_again exampleEnv
           (set_ObjectCache {[ "diameterServer.json" := mkConfigObject None "stale" ]}
              exampleConfig)
           "diameterServer.json" (mkConfigObject None "of unit1")).
  - reflexivity.
  - vm_compute. reflexivity.
Defined.

(** ** The search rules *)

Lemma searchLoop_harmless before rest objectName :
  Forall (harmless objectName) before ->
  forall base innerName, exists base' innerName',
    searchLoop (before ++ rest) objectName base innerName
    = searchLoop rest objectName base' innerName'.
Proof.
  induction 1 as [| rule before Hrule _ IH]; intros base innerName; [eauto |].
  cbn [app searchLoop]. unfold harmless in Hrule.
  destruct (Regex rule objectName) as [matches |]; [| apply IH].
  destruct matches as [| whole [| inner more]]; cbn in Hrule; try lia.
  cbn. apply IH.
Qed.

Lemma searchLoop_no_match after objectName base innerName :
  Forall (fun r => Regex r objectName = None) after ->
  searchLoop after objectName base innerName = Returned (base, innerName).
Proof.
  induction 1 as [| rule after Hrule _ IH]; [reflexivity |].
  cbn [searchLoop]. rewrite Hrule. exact IH.
Qed.

(** X29: the last search rule that matches the name decides where the object
    is read.  ReadConfigObject reads under the base of that rule the name
    its first group captured, whatever the rules before it matched (each
    with a group of its own); when that base is the empty string it returns the error "object name does
    not match any rules", though a rule matched. *)
Theorem last_matching_rule_decides_the_location
    (env : Env) (c : ConfigManager) (objectName inner : string)
    (before after : list searchRule) (rule : searchRule) :
  sRules c = before ++ rule :: after ->
  Forall (harmless objectName) before ->
  matchesWith rule objectName inner ->
  Forall (fun r => Regex r objectName = None) after ->
  ReadConfigObject env c objectName
  = if String.eqb (Base rule) EmptyString
    then Returned (zeroConfigObject, Some "object name does not match any rules")
    else Returned (readFrom env (InstanceName c) (Base rule) inner).
Proof.
  intros Hrules Hbefore (whole & more & Hmatch) Hafter. unfold ReadConfigObject.
  rewrite Hrules.
  destruct (searchLoop_harmless before (rule :: after) objectName Hbefore
              EmptyString EmptyString) as (b & i & ->).
  cbn [searchLoop]. rewrite Hmatch. cbn.
  rewrite (searchLoop_no_match after objectName _ _ Hafter). reflexivity.
Qed.

Lemma last_matching_rule_decides_the_location_witness :
  ReadConfigObject exampleEnv exampleConfig "template_basic"
  = Returned (readFrom exampleEnv "unit1" "http://cfg/" "basic").
Proof.
  apply (last_matching_rule_decides_the_location exampleEnv exampleConfig
           "template_basic" "basic"
           [mkRule "^(.+)$" "resources/" anyRegex] []
           (mkRule "^template_(.+)$" "http://cfg/" templateRegex)).
  - reflexivity.
  - repeat constructor.
  - exists "template_basic", []. reflexivity.
  - constructor.
Defined.

(** X30: a search rule whose expression has no group makes the retrieval of
    every name it matches panic, at matches[1], whatever the later rules
    are.  The panic passes through GetConfigObject and leaves the once of
    the name, already run, in InFlight: whoever recovers from the panic
    gets the error "could not get configuration object <name>" for that
    name from every later call, and nothing is read again. *)
Theorem rule_without_group_panics_and_poisons_the_name
    (env : Env) (c : ConfigManager) (objectName whole : string)
    (before after : list searchRule) (rule : searchRule) :
  sRules c = before ++ rule :: after ->
  Forall (harmless objectName) before ->
  Regex rule objectName = Some [whole] ->
  ObjectCache c !! objectName = None ->
  InFlight c !! objectName = None ->
  exists msg c',
    ReadConfigObject env c objectName = Panicked msg
    /\ GetConfigObject env c objectName = Panics c' msg
    /\ forall env',
         GetConfigObject env' c' objectName
         = Returns c' (zeroConfigObject,
                       Some ("could not get configuration object " ++ objectName)%string).
Proof.
  intros Hrules Hbefore Hmatch Hc Hf.
  assert (Hread : ReadConfigObject env c objectName = Panicked "index out of range").
  { unfold ReadConfigObject. rewrite Hrules.
    destruct (searchLoop_harmless before (rule :: after) objectName Hbefore
                EmptyString EmptyString) as (b & i & ->).
    cbn [searchLoop]. rewrite Hmatch. reflexivity. }
  eexists _, _. split; [exact Hread |]. split.
  - unfold GetConfigObject. rewrite Hc, Hf, ReadConfigObject_set_InFlight, Hread.
    reflexivity.
  - intros env'. unfold GetConfigObject. cbn [ObjectCache set_InFlight InFlight].
    rewrite Hc, lookup_insert_eq. unfold tryAgain. cbn [ObjectCache set_InFlight]. rewrite Hc.
    reflexivity.
Qed.

Lemma rule_without_group_panics_and_poisons_the_name_witness :
  let c := mkConfigManager "unit1" ∅ rulesWithGroupless ∅ in
  exists msg c',
    ReadConfigObject exampleEnv c "GyServer.json" = Panicked msg
    /\ GetConfigObject exampleEnv c "GyServer.json" = Panics c' msg
    /\ forall env',
         GetConfigObject env' c' "GyServer.json"
         = Returns c' (zeroConfigObject,
                       Some "could not get configuration object GyServer.json").
Proof.
  apply (rule_without_group_panics_and_poisons_the_name exampleEnv
           (mkConfigManager "unit1" ∅ rulesWithGroupless ∅) "GyServer.json" "GyServer.json"
           [] exampleRules (mkRule "^Gy.+$" "resources/gy/" groupless)).
  - reflexivity.
  - constructor.
  - reflexivity.
  - reflexivity.
  - reflexivity.
Defined.

End ConfigProperties.
